(** * yaspi: template rendering, script-set generation and log-path derivation

    A shallow embedding of [src/yaspi.py] (class [Yaspi]) and the proofs of
    the properties stated about it.

    Conventions of the embedding.
    - A Python [str] is a [string]; its characters are the code points below
      256.
    - A Python [int] is a [Z]; a value stored in a rule table is an [int] or
      a [str] and is turned into text by [str].
    - A raised exception is a value of [exn]; code that touches the file
      system or the console runs in the monad [M], which threads the
      [world] and keeps the effects done before an exception is raised.
    - The file system has directories and regular files, no symbolic links,
      and no operation on it is denied for want of permission; an entry is
      addressed by the absolute list of its path components. The system
      looks a path up by walking its components through the directories
      that are there; [Path.resolve] works on the text of the path alone. *)

From Stdlib Require Import String Ascii ZArith DecimalString Lia.
From stdpp Require Import base option gmap strings list.
From Equations Require Import Equations.

Local Open Scope string_scope.
Local Open Scope list_scope.
Local Open Scope nat_scope.

(* ===================================================================== *)
(** ** Python strings *)
(* ===================================================================== *)

Module PyStr.

Abbreviation LF := ("010"%char) (only parsing).
Abbreviation CR := ("013"%char) (only parsing).

(** [len(s)] *)
Definition len (s : string) : nat := String.length s.

Fixpoint drop (n : nat) (s : string) : string :=
  match n, s with
  | 0, _ => s
  | S _, EmptyString => EmptyString
  | S n', String _ s' => drop n' s'
  end.

Fixpoint take (n : nat) (s : string) : string :=
  match n, s with
  | 0, _ => EmptyString
  | S _, EmptyString => EmptyString
  | S n', String c s' => String c (take n' s')
  end.

(** [s[start:stop]] for bounds that are [None] or non-negative: a missing
    start is 0, a missing stop is [len(s)], both are clipped to [len(s)],
    and the slice is empty when [stop <= start]. *)
Definition slice (s : string) (start stop : option nat) : string :=
  let lo := default 0 start in
  let hi := default (len s) stop in
  take (hi - lo) (drop lo s).

(** [sep.join(l)] *)
Fixpoint join (sep : string) (l : list string) : string :=
  match l with
  | [] => ""
  | [x] => x
  | x :: rest => x +:+ sep +:+ join sep rest
  end.

(** [str(n)] for an [int]. *)
Definition str_of_int (n : Z) : string :=
  NilZero.string_of_int (Z.to_int n).

(** [s.startswith(p)], returning what follows the prefix. *)
Fixpoint strip_prefix (p s : string) : option string :=
  match p, s with
  | EmptyString, _ => Some s
  | String _ _, EmptyString => None
  | String a p', String b s' =>
      if Ascii.eqb a b then strip_prefix p' s' else None
  end.

(** The characters below 256 at which [str.splitlines] breaks a line:
    \n, \v, \f, \r, \x1c, \x1d, \x1e and \x85. *)
Definition is_line_boundary (c : ascii) : bool :=
  match nat_of_ascii c with
  | 10 | 11 | 12 | 13 | 28 | 29 | 30 | 133 => true
  | _ => false
  end.

(** [s.splitlines()]: the lines of [s] without their terminators; \r\n is
    one terminator, and a terminator at the very end opens no new line. *)
Fixpoint splitlines (s : string) : list string :=
  match s with
  | EmptyString => []
  | String c s' =>
      if is_line_boundary c then
        "" :: (if Ascii.eqb c CR then
                 match s' with
                 | String c2 s'' =>
                     if Ascii.eqb c2 LF then splitlines s'' else splitlines s'
                 | EmptyString => splitlines s'
                 end
               else splitlines s')
      else
        match splitlines s' with
        | [] => [String c ""]
        | l :: ls => String c l :: ls
        end
  end.

(** What a text-mode [read()] returns for the stored characters: universal
    newlines turn \r\n and a lone \r into \n. *)
Fixpoint universal_newlines (s : string) : string :=
  match s with
  | EmptyString => EmptyString
  | String c s' =>
      if Ascii.eqb c CR then
        match s' with
        | String c2 s'' =>
            if Ascii.eqb c2 LF then String LF (universal_newlines s'')
            else String LF (universal_newlines s')
        | EmptyString => String LF (universal_newlines s')
        end
      else String c (universal_newlines s')
  end.

(** [s.split(sep)] for a one-character separator. *)
Fixpoint split_on (sep : ascii) (s : string) : list string :=
  match s with
  | EmptyString => [""]
  | String c s' =>
      if Ascii.eqb c sep then "" :: split_on sep s'
      else match split_on sep s' with
           | [] => [String c ""]
           | l :: ls => String c l :: ls
           end
  end.

(** [s.lstrip(c)], with the number of characters removed. *)
Fixpoint lstrip_count (c : ascii) (s : string) : nat * string :=
  match s with
  | EmptyString => (0, EmptyString)
  | String a s' =>
      if Ascii.eqb a c then
        let '(n, r) := lstrip_count c s' in (S n, r)
      else (0, s)
  end.

Lemma strip_prefix_length p s r :
  strip_prefix p s = Some r -> String.length s = String.length p + String.length r.
Proof.
  revert s; induction p as [|a p IH]; intros s H; simpl in *.
  - congruence.
  - destruct s as [|b s]; [discriminate|].
    destruct (Ascii.eqb a b); [|discriminate].
    apply IH in H. simpl. lia.
Qed.

(** [s.replace(old, new)]: the occurrences of [old] are found left to right
    without overlap; an empty [old] matches before every character and at
    the end. *)
Definition inspect {A} (x : A) : {y : A | x = y} := exist _ x eq_refl.

Equations? replace_nonempty (a : ascii) (old' new s : string) : string
  by wf (String.length s) lt :=
  replace_nonempty a old' new EmptyString := EmptyString;
  replace_nonempty a old' new (String c s')
    with inspect (strip_prefix (String a old') (String c s')) := {
    | exist _ (Some rest) Heq => new +:+ replace_nonempty a old' new rest
    | exist _ None _ => String c (replace_nonempty a old' new s')
  }.
Proof.
  destruct (Ascii.eqb a c); [|discriminate].
  apply strip_prefix_length in Heq. lia.
Qed.

Fixpoint intersperse_all (new s : string) : string :=
  match s with
  | EmptyString => new
  | String c s' => new +:+ String c (intersperse_all new s')
  end.

Definition replace (s old new : string) : string :=
  match old with
  | EmptyString => intersperse_all new s
  | String a old' => replace_nonempty a old' new s
  end.

(** The last character of [s], if it has one. *)
Fixpoint last_char (s : string) : option ascii :=
  match s with
  | EmptyString => None
  | String c EmptyString => Some c
  | String _ s' => last_char s'
  end.

(** [c in s] for a character. *)
Fixpoint has_char (c : ascii) (s : string) : bool :=
  match s with
  | EmptyString => false
  | String a s' => Ascii.eqb a c || has_char c s'
  end.

(** The double-quote character, as a one-character string. *)
Definition dquote : string := String "034"%char "".

(** [f"{n:04d}"]: decimal, the sign first, zero-filled to a width of at
    least four characters. *)
Fixpoint zeros (n : nat) : string :=
  match n with
  | 0 => ""
  | S n' => String "0" (zeros n')
  end.

Definition format_04d (n : Z) : string :=
  let digits := str_of_int (Z.abs n) in
  let sign := if (n <? 0)%Z then "-" else "" in
  sign +:+ zeros (4 - len sign - len digits) +:+ digits.

End PyStr.

(* ===================================================================== *)
(** ** Exceptions and rule values *)
(* ===================================================================== *)

Inductive exn : Type :=
| KeyError (key : string)
| ValueError (msg : string)
| AssertionError (msg : string)
| AttributeError (name : string)
| FileNotFoundError (path : string)
| FileExistsError (path : string)
| IsADirectoryError (path : string)
| NotADirectoryError (path : string).

Inductive result (A : Type) : Type :=
| Ok (a : A)
| Raise (e : exn).
Arguments Ok {A} a.
Arguments Raise {A} e.

Definition rbind {A B} (r : result A) (f : A -> result B) : result B :=
  match r with
  | Ok a => f a
  | Raise e => Raise e
  end.

(** [[f(x) for x in l]], stopping at the first exception. *)
Fixpoint rmap {A B} (f : A -> result B) (l : list A) : result (list B) :=
  match l with
  | [] => Ok []
  | x :: l' =>
      rbind (f x) (fun y => rbind (rmap f l') (fun ys => Ok (y :: ys)))
  end.

(** What a rule table holds: the recipe stores [int]s and [str]s. *)
Inductive value : Type :=
| VInt (n : Z)
| VStr (s : string).

(** [str(v)] *)
Definition str (v : value) : string :=
  match v with
  | VInt n => PyStr.str_of_int n
  | VStr s => s
  end.

(** [d[key]] on a [dict] with [str] keys. *)
Definition getitem {V} (d : gmap string V) (key : string) : result V :=
  match d !! key with
  | Some v => Ok v
  | None => Raise (KeyError key)
  end.

(* ===================================================================== *)
(** ** The placeholder pattern *)
(* ===================================================================== *)

Module Re.
Import PyStr.

(** A match object: its span and its captured groups. *)
Record re_match : Type := mk_match {
  span : nat * nat;
  groups : list string;
}.

(** After the opening braces: [(.*?)\}\}]. The lazy star first tries to
    close the placeholder and otherwise takes one more character, which
    [.] refuses when it is a newline. The result is the captured text and
    what follows the closing braces. *)
Fixpoint lazy_group (s : string) : option (string * string) :=
  match s with
  | EmptyString => None
  | String c s' =>
      match strip_prefix "}}" s with
      | Some rest => Some ("", rest)
      | None =>
          if Ascii.eqb c LF then None
          else match lazy_group s' with
               | Some (k, rest) => Some (String c k, rest)
               | None => None
               end
      end
  end.

(** [re.match(r"\{\{(.*?)\}\}", s)]: the captured name and the rest of [s]
    after the match. *)
Definition match_here (s : string) : option (string * string) :=
  match strip_prefix "{{" s with
  | Some s1 => lazy_group s1
  | None => None
  end.

Lemma lazy_group_length s k rest :
  lazy_group s = Some (k, rest) ->
  String.length s = String.length k + 2 + String.length rest.
Proof.
  revert k rest; induction s as [|c s IH]; intros k rest H; [discriminate|].
  cbn [lazy_group] in H.
  destruct (strip_prefix "}}" (String c s)) as [r|] eqn:E.
  - injection H as <- <-. apply strip_prefix_length in E. simpl in *. lia.
  - destruct (Ascii.eqb c LF); [discriminate|].
    destruct (lazy_group s) as [[k' r']|]; [|discriminate].
    injection H as <- <-. specialize (IH _ _ eq_refl). simpl. lia.
Qed.

Lemma match_here_length s k rest :
  match_here s = Some (k, rest) ->
  String.length s = 4 + String.length k + String.length rest.
Proof.
  unfold match_here. intros H.
  destruct (strip_prefix "{{" s) as [s1|] eqn:E; [|discriminate].
  apply strip_prefix_length in E. apply lazy_group_length in H.
  simpl in *. lia.
Qed.

(** [re.finditer(r"\{\{(.*?)\}\}", row)] scanning [s], the part of the row
    from index [pos] on: the leftmost match is reported and the search
    resumes behind it; where no match starts the search moves one character
    on. *)
Equations? finditer_from (s : string) (pos : nat) : list re_match
  by wf (String.length s) lt :=
  finditer_from EmptyString pos := [];
  finditer_from (String c s') pos with inspect (match_here (String c s')) := {
    | exist _ (Some (k, rest)) Heq =>
        mk_match (pos, pos + 4 + len k) [k]
          :: finditer_from rest (pos + 4 + len k)
    | exist _ None _ => finditer_from s' (S pos)
  }.
Proof.
  apply match_here_length in Heq. simpl in *. lia.
Qed.

Definition finditer (row : string) : list re_match := finditer_from row 0.

End Re.

(* ===================================================================== *)
(** ** Rendering one template row *)
(* ===================================================================== *)

Module Render.
Import PyStr Re.

(** [itertools.zip_longest(l1, l2, fillvalue=fill)] *)
Fixpoint zip_longest {A} (fill : A) (l1 l2 : list A) : list (A * A) :=
  match l1 with
  | [] => map (fun y => (fill, y)) l2
  | x :: l1' =>
      match l2 with
      | [] => (x, fill) :: zip_longest fill l1' []
      | y :: l2' => (x, y) :: zip_longest fill l1' l2'
      end
  end.

(** [zip(l1, l2)] *)
Fixpoint zip {A B} (l1 : list A) (l2 : list B) : list (A * B) :=
  match l1, l2 with
  | x :: l1', y :: l2' => (x, y) :: zip l1' l2'
  | _, _ => []
  end.

(** A span bound as the row loop writes it: [None] or an index. *)
Definition bound : Type := option nat.

(** The body of [for match in re.finditer(regex, row)]. *)
Definition edit_of_match (rules : gmap string value) (m : re_match)
  : result ((nat * nat) * value) :=
  let groups := groups m in
  if negb (length groups =? 1) then Raise (AssertionError "expected single group")
  else
    match groups with
    | key :: _ =>
        rbind (getitem rules key) (fun token => Ok (span m, token))
    | [] => Raise (AssertionError "expected single group")
    end.

(** The body of [for row in template]: the edits of the row are collected,
    the spans between them are cut out of the row, and the pieces are put
    back together with the stringified tokens in between. *)
Definition fill_row (rules : gmap string value) (row : string) : result string :=
  rbind (rmap (edit_of_match rules) (finditer row)) (fun edits =>
    match edits with
    | [] => Ok row
    | _ :: _ =>
        let spans : list (bound * bound) :=
          [(None, Some 0)]
            ++ map (fun x => (Some (fst (fst x)), Some (snd (fst x)))) edits
            ++ [(Some (len row), None)] in
        let inverse_spans :=
          map (fun xy => (snd (fst xy), fst (snd xy))) (zip spans (tail spans)) in
        let tokens :=
          map (fun ss => slice row (fst ss) (snd ss)) inverse_spans in
        let urls := map (fun x => str (snd x)) edits in
        let new_row :=
          fold_left (fun new_row tu => new_row +:+ (fst tu +:+ snd tu))
                    (zip_longest "" tokens urls) "" in
        Ok new_row
    end).

(** The row loop of [fill_template]. *)
Definition fill_rows (rules : gmap string value) (template : list string)
  : result (list string) :=
  rmap (fill_row rules) template.

(** The text [fill_template] returns for the text it has read. *)
Definition fill_text (rules : gmap string value) (text : string) : result string :=
  rbind (fill_rows rules (splitlines text)) (fun generated =>
    Ok (join (String LF "") generated)).

(** The rendering of a row said directly: going through the text from the
    left, a placeholder is replaced by the text of its rule value, any other
    character is kept, and a name without a rule raises [KeyError]. *)
Equations? substitute (rules : gmap string value) (s : string) : result string
  by wf (String.length s) lt :=
  substitute rules EmptyString := Ok EmptyString;
  substitute rules (String c s') with inspect (match_here (String c s')) := {
    | exist _ (Some (k, rest)) Heq =>
        rbind (getitem rules k) (fun v =>
        rbind (substitute rules rest) (fun r => Ok (str v +:+ r)))
    | exist _ None _ =>
        rbind (substitute rules s') (fun r => Ok (String c r))
  }.
Proof.
  apply match_here_length in Heq. simpl in *. lia.
Qed.

(** [sub in s] *)
Definition is_substring (sub s : string) : Prop :=
  exists pre post, s = pre +:+ sub +:+ post.

(** [s.endswith(suffix)] *)
Definition ends_with (suffix s : string) : Prop :=
  exists pre, s = pre +:+ suffix.

End Render.

(* ===================================================================== *)
(** ** Paths ([pathlib.PurePosixPath]) *)
(* ===================================================================== *)

Module PurePath.
Import PyStr.

(** A parsed path: its root (empty, one slash or two) and its components. *)
Record path : Type := mk_path {
  root : string;
  parts : list string;
}.

Definition is_component (x : string) : bool :=
  negb (String.eqb x "") && negb (String.eqb x ".").

(** [Path(s)]: a leading run of slashes is the root (exactly two are kept
    as they are, any other number is one), and the empty and [.]
    components are dropped. *)
Definition parse_path (s : string) : path :=
  let '(n, rel) := lstrip_count "/" s in
  let root := match n with 0 => "" | 2 => "//" | _ => "/" end in
  mk_path root (List.filter is_component (split_on "/" rel)).

(** [str(p)] *)
Definition to_str (p : path) : string :=
  match parts p with
  | [] => if String.eqb (root p) "" then "." else root p
  | _ :: _ => root p +:+ join "/" (parts p)
  end.

(** [p / q]: an absolute right operand replaces the left one. *)
Definition joinpath (p q : path) : path :=
  if String.eqb (root q) "" then mk_path (root p) (parts p ++ parts q)
  else q.

(** [p.parent] *)
Definition parent (p : path) : path :=
  mk_path (root p) (removelast (parts p)).

Fixpoint strip_parts (pre l : list string) : option (list string) :=
  match pre, l with
  | [], _ => Some l
  | _ :: _, [] => None
  | a :: pre', b :: l' => if String.eqb a b then strip_parts pre' l' else None
  end.

(** [p.relative_to(other)]: [other] must have the root of [p] and its
    components must open those of [p]; otherwise [ValueError] is raised.
    Its message names the two paths; the wording is the library's and
    differs between versions of Python, and nothing below depends on
    it. *)
Definition relative_to (p other : path) : result path :=
  if String.eqb (root p) (root other) then
    match strip_parts (parts other) (parts p) with
    | Some rel => Ok (mk_path "" rel)
    | None =>
        Raise (ValueError (to_str p +:+ " does not start with " +:+ to_str other))
    end
  else Raise (ValueError (to_str p +:+ " does not start with " +:+ to_str other)).

(** The absolute components of the resolved form of a path, from the
    working directory [cwd]: [..] steps back in the text, and stays at the
    root there. *)
Definition resolve_parts (cwd : list string) (p : path) : list string :=
  fold_left
    (fun acc x => if String.eqb x ".." then removelast acc else acc ++ [x])
    (parts p)
    (if String.eqb (root p) "" then cwd else []).

End PurePath.

(* ===================================================================== *)
(** ** The world: file system, working directory, console *)
(* ===================================================================== *)

Module World.
Import PyStr PurePath.

Inductive node : Type :=
| File (content : string) (mode : N)
| Dir.

Record world : Type := mk_world {
  fs : gmap (list string) node;
  cwd : list string;
  umask : N;
  stdout : list string;
}.

Definition set_fs (w : world) (f : gmap (list string) node) : world :=
  mk_world f (cwd w) (umask w) (stdout w).

(** The entry at an absolute component list; the root is a directory. *)
Definition lookup_node (f : gmap (list string) node) (k : list string)
  : option node :=
  match k with
  | [] => Some Dir
  | _ :: _ => f !! k
  end.

(** The absolute components [Path(s).resolve()] gives for the path string
    [s]: the working directory is put before a relative path, and [..] is
    taken out of the text without a look at the file system. *)
Definition key_of (w : world) (s : string) : list string :=
  resolve_parts (cwd w) (parse_path s).

(** *** Path lookup by the system *)

(** The two ways the lookup of a path fails. *)
Inductive errno : Type :=
| ENOENT
| ENOTDIR.

Definition os_error (e : errno) (s : string) : exn :=
  match e with
  | ENOENT => FileNotFoundError s
  | ENOTDIR => NotADirectoryError s
  end.

(** One step from the directory [cur]: [..] is its parent (the root is
    its own), a name is the entry of that name in it. *)
Definition step (cur : list string) (x : string) : list string :=
  if String.eqb x ".." then removelast cur else cur ++ [x].

(** The walk through the directories [comps] from the directory [cur]:
    every name on the way has to be a directory that is there. *)
Fixpoint dirwalk (f : gmap (list string) node) (cur : list string)
    (comps : list string) : errno + list string :=
  match comps with
  | [] => inr cur
  | x :: rest =>
      if String.eqb x ".." then dirwalk f (removelast cur) rest
      else
        match lookup_node f (cur ++ [x]) with
        | Some Dir => dirwalk f (cur ++ [x]) rest
        | Some (File _ _) => inl ENOTDIR
        | None => inl ENOENT
        end
  end.

(** The lookup of the components [comps] from the directory [cur]: the
    components before the last are walked through as directories; the
    last one names the entry looked for, which need not be there. *)
Definition namei (f : gmap (list string) node) (cur : list string)
    (comps : list string) : errno + list string :=
  match last comps with
  | None => inr cur
  | Some x =>
      match dirwalk f cur (removelast comps) with
      | inl e => inl e
      | inr k => inr (step k x)
      end
  end.

(** The directory the lookup of a path begins in. *)
Definition start_of (w : world) (p : path) : list string :=
  if String.eqb (root p) "" then cwd w else [].

(** The key of the entry the path string [s] names for the system. *)
Definition locate (w : world) (s : string) : errno + list string :=
  namei (fs w) (start_of w (parse_path s)) (parts (parse_path s)).

(** [os.stat(s)]: the entry the path string names. *)
Definition stat (w : world) (s : string) : errno + node :=
  match locate w s with
  | inl e => inl e
  | inr k =>
      match lookup_node (fs w) k with
      | Some n => inr n
      | None => inl ENOENT
      end
  end.

(** Computations that may raise and that change the world; what was done
    before an exception stays done. *)
Definition M (A : Type) : Type := world -> result A * world.

Definition ret {A} (a : A) : M A := fun w => (Ok a, w).
Definition raise {A} (e : exn) : M A := fun w => (Raise e, w).
Definition bind {A B} (c : M A) (f : A -> M B) : M B :=
  fun w =>
    match c w with
    | (Ok a, w') => f a w'
    | (Raise e, w') => (Raise e, w')
    end.
Definition lift {A} (r : result A) : M A := fun w => (r, w).

Declare Scope M_scope.
Delimit Scope M_scope with M.
Notation "'let*' x ':=' c 'in' k" := (bind c (fun x => k))
  (at level 10, x pattern, c at level 100, k at level 200) : M_scope.

(** [for x in l: acc = body(acc, x)] *)
Fixpoint for_fold {A S} (body : S -> A -> M S) (l : list A) (acc : S) : M S :=
  match l with
  | [] => ret acc
  | x :: l' => bind (body acc x) (for_fold body l')
  end.

(** [print(msg)] *)
Definition print (msg : string) : M unit :=
  fun w => (Ok tt, mk_world (fs w) (cwd w) (umask w) (stdout w ++ [msg])).

(** The mode of a newly created regular file: [0o666] less the umask. *)
Definition new_file_mode (w : world) : N := N.ldiff 438 (umask w).

(** [Path(s).exists()]: a path whose lookup fails does not exist. *)
Definition os_exists (s : string) : M bool :=
  fun w =>
    (Ok (match stat w s with
         | inr _ => true
         | inl _ => false
         end), w).

(** [Path(s).is_dir()] *)
Definition is_dir (s : string) : M bool :=
  fun w =>
    (Ok (match stat w s with
         | inr Dir => true
         | _ => false
         end), w).

(** [os.mkdir(s)] *)
Definition os_mkdir (s : string) : M unit :=
  fun w =>
    match locate w s with
    | inl e => (Raise (os_error e s), w)
    | inr k =>
        match lookup_node (fs w) k with
        | Some _ => (Raise (FileExistsError s), w)
        | None => (Ok tt, set_fs w (<[k := Dir]> (fs w)))
        end
    end.

(** The handler of [OSError] in [Path.mkdir] when [exist_ok] is set: the
    error is raised again unless the path is a directory. *)
Definition unless_is_dir (s : string) (e : exn) : M unit :=
  bind (is_dir s) (fun d => if d : bool then ret tt else raise e).

(** [p.mkdir(parents=False, exist_ok=True)]: [FileNotFoundError] is raised
    again; any other error of [os.mkdir] goes to the handler. *)
Definition mkdir_here (p : path) : M unit :=
  fun w =>
    match os_mkdir (to_str p) w with
    | (Ok u, w1) => (Ok u, w1)
    | (Raise (FileNotFoundError s), w1) => (Raise (FileNotFoundError s), w1)
    | (Raise e, w1) => unless_is_dir (to_str p) e w1
    end.

(** [p.mkdir(parents=True, exist_ok=True)] for the path with the root [r]
    and the components [rparts], last one first. When [os.mkdir] raises
    [FileNotFoundError] and the path has a parent other than itself, the
    parent is made in the same way and the directory is made again,
    without its parents. *)
Fixpoint mkdir_rec (r : string) (rparts : list string) : M unit :=
  fun w =>
    let p := mk_path r (rev rparts) in
    match os_mkdir (to_str p) w with
    | (Ok u, w1) => (Ok u, w1)
    | (Raise (FileNotFoundError s), w1) =>
        match rparts with
        | [] => (Raise (FileNotFoundError s), w1)
        | _ :: rparent => bind (mkdir_rec r rparent) (fun _ => mkdir_here p) w1
        end
    | (Raise e, w1) => unless_is_dir (to_str p) e w1
    end.

(** [p.mkdir(exist_ok=True, parents=True)] *)
Definition mkdir_parents (p : path) : M unit :=
  mkdir_rec (root p) (rev (parts p)).

(** [Path(s).touch()]: the time stamp of an entry that is there is set and
    the entry left as it is; otherwise the file is opened for creation. *)
Definition touch (s : string) : M unit :=
  fun w =>
    match locate w s with
    | inl e => (Raise (os_error e s), w)
    | inr k =>
        match lookup_node (fs w) k with
        | Some _ => (Ok tt, w)
        | None => (Ok tt, set_fs w (<[k := File "" (new_file_mode w)]> (fs w)))
        end
    end.

(** [Path(s).unlink()] *)
Definition unlink (s : string) : M unit :=
  fun w =>
    match locate w s with
    | inl e => (Raise (os_error e s), w)
    | inr k =>
        match lookup_node (fs w) k with
        | Some (File _ _) => (Ok tt, set_fs w (delete k (fs w)))
        | Some Dir => (Raise (IsADirectoryError s), w)
        | None => (Raise (FileNotFoundError s), w)
        end
    end.

(** [open(s, "r").read()] *)
Definition read_text (s : string) : M string :=
  fun w =>
    match stat w s with
    | inr (File content _) => (Ok (universal_newlines content), w)
    | inr Dir => (Raise (IsADirectoryError s), w)
    | inl e => (Raise (os_error e s), w)
    end.

(** [open(s, "w")]: the file is created, or emptied when it exists. *)
Definition open_w (s : string) : M unit :=
  fun w =>
    match locate w s with
    | inl e => (Raise (os_error e s), w)
    | inr k =>
        match lookup_node (fs w) k with
        | Some (File _ mode) =>
            (Ok tt, set_fs w (<[k := File "" mode]> (fs w)))
        | Some Dir => (Raise (IsADirectoryError s), w)
        | None =>
            (Ok tt, set_fs w (<[k := File "" (new_file_mode w)]> (fs w)))
        end
    end.

(** [f.write(text)] on the file opened at [s], closed right after. *)
Definition write (s : string) (text : string) : M unit :=
  fun w =>
    match locate w s with
    | inl e => (Raise (os_error e s), w)
    | inr k =>
        match lookup_node (fs w) k with
        | Some (File content mode) =>
            (Ok tt, set_fs w (<[k := File (content +:+ text) mode]> (fs w)))
        | Some Dir => (Raise (IsADirectoryError s), w)
        | None => (Raise (FileNotFoundError s), w)
        end
    end.

(** [Path(s).chmod(mode)] *)
Definition chmod (s : string) (mode : N) : M unit :=
  fun w =>
    match locate w s with
    | inl e => (Raise (os_error e s), w)
    | inr k =>
        match lookup_node (fs w) k with
        | Some (File content _) =>
            (Ok tt, set_fs w (<[k := File content mode]> (fs w)))
        | Some Dir => (Ok tt, w)
        | None => (Raise (FileNotFoundError s), w)
        end
    end.

(** [str(Path(s).resolve())] *)
Definition resolve (s : string) : M string :=
  fun w => (Ok (to_str (mk_path "/" (key_of w s))), w).

End World.

(* ===================================================================== *)
(** ** The class [Yaspi] *)
(* ===================================================================== *)

Module Yaspi.
Import PyStr Re Render PurePath World.
Local Open Scope M_scope.

(** The attributes of a [Yaspi] object. [log_path] and [gen_scripts] are
    [None] until [generate_scripts] sets them. *)
Record Yaspi : Type := mk_Yaspi {
  cmd : string;
  log_dir : string;
  recipe : string;
  job_name : string;
  partition : string;
  env_setup : option string;
  refresh_logs : bool;
  template_dir : string;
  cpus_per_task : Z;
  gpus_per_task : option Z;
  gen_script_dir : string;
  job_array_size : Z;
  log_path : option string;
  gen_scripts : option (gmap string path);
}.

Definition set_env_setup (self : Yaspi) (v : string) : Yaspi :=
  mk_Yaspi (cmd self) (log_dir self) (recipe self) (job_name self)
    (partition self) (Some v) (refresh_logs self) (template_dir self)
    (cpus_per_task self) (gpus_per_task self) (gen_script_dir self)
    (job_array_size self) (log_path self) (gen_scripts self).

Definition set_log_path (self : Yaspi) (v : string) : Yaspi :=
  mk_Yaspi (cmd self) (log_dir self) (recipe self) (job_name self)
    (partition self) (env_setup self) (refresh_logs self) (template_dir self)
    (cpus_per_task self) (gpus_per_task self) (gen_script_dir self)
    (job_array_size self) (Some v) (gen_scripts self).

Definition set_gen_scripts (self : Yaspi) (v : gmap string path) : Yaspi :=
  mk_Yaspi (cmd self) (log_dir self) (recipe self) (job_name self)
    (partition self) (env_setup self) (refresh_logs self) (template_dir self)
    (cpus_per_task self) (gpus_per_task self) (gen_script_dir self)
    (job_array_size self) (log_path self) (Some v).

(** [self.fill_template(template_path, rules)] *)
Definition fill_template (template_path : path) (rules : gmap string value)
  : M string :=
  let* text := read_text (to_str template_path) in
  let template := splitlines text in
  let* generated := lift (fill_rows rules template) in
  ret (join (String LF "") generated).

(** The environment the ray recipe sets up when the caller gives none. *)
Definition ray_default_env_setup : string :=
  "export PYTHONPATH=" +:+ dquote +:+ "${BASE}" +:+ dquote +:+ ":$PYTHONPATH"
    +:+ String LF
  ("export PATH=" +:+ dquote +:+ "${HOME}/local/anaconda3/condabin/:$PATH"
    +:+ dquote +:+ String LF
  ("source ~/local/anaconda3/etc/profile.d/conda.sh" +:+ String LF
   "conda activate pt37")).

Definition ray_template_paths : list (string * string) :=
  [ ("master", "ray/ray-master.sh");
    ("sbatch", "ray/ray-sbatch.sh");
    ("head-node", "ray/start-ray-head-node.sh");
    ("worker-node", "ray/start-ray-worker-node.sh") ].

(** The truth value of [self.gpus_per_task]: [None] and [0] are false. *)
Definition truthy (n : option Z) : bool :=
  match n with
  | None => false
  | Some z => negb (z =? 0)%Z
  end.

(** The rule tables of the ray recipe, for an object whose [env_setup] and
    [log_path] have been set; [gen_dir] is [Path(self.gen_script_dir)]. *)
Definition ray_rules (self : Yaspi) (gen_dir : path) (env log : string)
  : gmap string (gmap string value) :=
  let rules : gmap string (gmap string value) :=
    <["master" :=
        <["nfs_update_secs" := VInt 1]>
        (<["ray_sbatch_path" :=
             VStr (to_str (joinpath gen_dir (parse_path "ray/ray-sbatch.sh")))]> ∅)]>
    (<["sbatch" :=
        <["cmd" := VStr (cmd self)]>
        (<["log_path" := VStr log]>
        (<["job_name" := VStr (job_name self)]>
        (<["partition" := VStr (partition self)]>
        (<["env_setup" := VStr env]>
        (<["array" := VStr ("1-" +:+ str_of_int (job_array_size self))]>
        (<["cpus_per_task" := VInt (cpus_per_task self)]>
        (<["approx_ray_init_time_in_secs" := VInt 10]>
        (<["head_init_script" :=
             VStr (to_str (joinpath gen_dir
                     (parse_path "ray/start-ray-head-node.sh")))]>
        (<["worker_init_script" :=
             VStr (to_str (joinpath gen_dir
                     (parse_path "ray/start-ray-worker-node.sh")))]> ∅)))))))))]>
    (<["head-node" := <["env_setup" := VStr env]> ∅]>
    (<["worker-node" := <["env_setup" := VStr env]> ∅]> ∅))) in
  if truthy (gpus_per_task self) then
    let resource_str :=
      "SBATCH --gres=gpu:" +:+
      match gpus_per_task self with
      | Some n => str_of_int n
      | None => "None"
      end in
    alter (fun sbatch => <["sbatch_resources" := VStr resource_str]> sbatch)
          "sbatch" rules
  else rules.

(** The recipe dispatch of [generate_scripts]: the object with the
    attributes the recipe sets, the templates of the recipe, and its rule
    tables. *)
Definition select_recipe (self : Yaspi) (gen_dir : path)
  : result (Yaspi * list (string * string) * gmap string (gmap string value)) :=
  if String.eqb (recipe self) "ray" then
    let env :=
      match env_setup self with
      | None => ray_default_env_setup
      | Some e => e
      end in
    let self := set_env_setup self env in
    let template_paths := ray_template_paths in
    let log :=
      to_str (joinpath (joinpath (parse_path (log_dir self))
                                 (parse_path (job_name self)))
                       (parse_path "%4a-log.txt")) in
    let self := set_log_path self log in
    Ok (self, template_paths, ray_rules self gen_dir env log)
  else
    Raise (ValueError ("template: " +:+ recipe self +:+ " unrecognised")).

(** The body of the loop over the templates: render, record the
    destination, make its directory, write the script, make it
    executable. *)
Definition write_script (self : Yaspi) (gen_dir : path)
    (rules : gmap string (gmap string value))
    (scripts : gmap string path) (item : string * path)
  : M (gmap string path) :=
  let '(key, template_path) := item in
  let* role_rules := lift (getitem rules key) in
  let* gen := fill_template template_path role_rules in
  let* rel := lift (relative_to template_path (parse_path (template_dir self))) in
  let dest_path := joinpath gen_dir rel in
  let scripts := <[key := dest_path]> scripts in
  let* _ := mkdir_parents (parent dest_path) in
  let* _ := open_w (to_str dest_path) in
  let* _ := print ("Writing slurm script (" +:+ key +:+ ") to "
                   +:+ to_str dest_path) in
  let* _ := write (to_str dest_path) gen in
  let* _ := chmod (to_str dest_path) 493 in
  ret scripts.

(** [self.generate_scripts()], returning the object as it is afterwards. *)
Definition generate_scripts (self : Yaspi) : M Yaspi :=
  let gen_dir := parse_path (gen_script_dir self) in
  let* selected := lift (select_recipe self gen_dir) in
  let self := fst (fst selected) in
  let template_paths := snd (fst selected) in
  let rules := snd selected in
  let template_paths :=
    map (fun kv => (fst kv, joinpath (parse_path (template_dir self))
                                     (parse_path (snd kv))))
        template_paths in
  let* scripts :=
    for_fold (write_script self gen_dir rules) template_paths ∅ in
  ret (set_gen_scripts self scripts).

(** [Yaspi(...)] *)
Definition __init__ (job_name cmd recipe gen_script_dir template_dir log_dir
    partition : string) (job_array_size cpus_per_task : Z)
    (gpus_per_task : option Z) (refresh_logs : bool)
    (env_setup : option string) : M Yaspi :=
  generate_scripts
    (mk_Yaspi cmd log_dir recipe job_name partition env_setup refresh_logs
       template_dir cpus_per_task gpus_per_task gen_script_dir job_array_size
       None None).

(** [range(n)] *)
Definition range (n : Z) : list Z := map Z.of_nat (seq 0 (Z.to_nat n)).

(** The body of the loop of [get_log_paths]. *)
Definition watch_log (self : Yaspi) (watched_logs : list string) (idx : Z)
  : M (list string) :=
  let slurm_id := (idx + 1)%Z in
  let* log_path :=
    lift (match log_path self with
          | Some p => Ok p
          | None => Raise (AttributeError "log_path")
          end) in
  let watched_log := parse_path (replace log_path "%4a" (format_04d slurm_id)) in
  let* _ := mkdir_parents (parent watched_log) in
  let* _ :=
    if refresh_logs self then
      let* present := os_exists (to_str watched_log) in
      if present then unlink (to_str watched_log) else ret tt
    else ret tt in
  let* present := os_exists (to_str watched_log) in
  let* _ :=
    if negb present then
      let* _ := print ("Creating watch log: " +:+ to_str watched_log
                       +:+ " for the first time") in
      touch (to_str watched_log)
    else ret tt in
  let* resolved := resolve (to_str watched_log) in
  ret (watched_logs ++ [resolved]).

(** [self.get_log_paths()] *)
Definition get_log_paths (self : Yaspi) : M (list string) :=
  for_fold (watch_log self) (range (job_array_size self)) [].

End Yaspi.

(* ===================================================================== *)
(** ** Facts about strings *)
(* ===================================================================== *)

Module StrFacts.
Import PyStr.

Lemma app_nil_l s : "" +:+ s = s.
Proof. reflexivity. Qed.

Lemma app_cons c s t : String c s +:+ t = String c (s +:+ t).
Proof. reflexivity. Qed.

Lemma app_nil_r s : s +:+ "" = s.
Proof. induction s as [|c s IH]; [reflexivity|]. rewrite app_cons, IH. reflexivity. Qed.

Lemma app_assoc s t u : (s +:+ t) +:+ u = s +:+ (t +:+ u).
Proof.
  induction s as [|c s IH]; [reflexivity|].
  rewrite !app_cons, IH. reflexivity.
Qed.

Lemma length_app s t : String.length (s +:+ t) = String.length s + String.length t.
Proof.
  induction s as [|c s IH]; [reflexivity|].
  rewrite app_cons. simpl. rewrite IH. reflexivity.
Qed.

Lemma drop_0 s : drop 0 s = s.
Proof. destruct s; reflexivity. Qed.

Lemma drop_nil n : drop n "" = "".
Proof. destruct n; reflexivity. Qed.

Lemma take_nil n : take n "" = "".
Proof. destruct n; reflexivity. Qed.

Lemma take_0 s : take 0 s = "".
Proof. destruct s; reflexivity. Qed.

Lemma drop_drop n m s : drop n (drop m s) = drop (m + n) s.
Proof.
  revert s; induction m as [|m IH]; intros s; simpl.
  - reflexivity.
  - destruct s as [|c s]; [apply drop_nil|]. apply IH.
Qed.

Lemma drop_app_length s t : drop (String.length s) (s +:+ t) = t.
Proof.
  induction s as [|c s IH]; [apply drop_0|].
  rewrite app_cons. simpl. exact IH.
Qed.

Lemma length_drop n s : String.length (drop n s) = String.length s - n.
Proof.
  revert s; induction n as [|n IH]; intros s.
  - rewrite drop_0. lia.
  - destruct s as [|c s]; [reflexivity|]. simpl. apply IH.
Qed.

Lemma take_all n s : String.length s <= n -> take n s = s.
Proof.
  revert s; induction n as [|n IH]; intros [|c s] H; simpl in *;
    try reflexivity; try lia.
  f_equal. apply IH. lia.
Qed.

Lemma strip_prefix_app p s r : strip_prefix p s = Some r -> s = p +:+ r.
Proof.
  revert s; induction p as [|a p IH]; intros s H; simpl in H.
  - injection H as ->. reflexivity.
  - destruct s as [|b s]; [discriminate|].
    destruct (Ascii.eqb a b) eqn:E; [|discriminate].
    apply Ascii.eqb_eq in E as ->. rewrite app_cons. f_equal. auto.
Qed.

Lemma strip_prefix_app_same p r : strip_prefix p (p +:+ r) = Some r.
Proof.
  induction p as [|a p IH]; [reflexivity|].
  rewrite app_cons. simpl. rewrite Ascii.eqb_refl. exact IH.
Qed.

Lemma join_cons2 sep x y l :
  join sep (x :: y :: l) = x +:+ sep +:+ join sep (y :: l).
Proof. reflexivity. Qed.

End StrFacts.

(* ===================================================================== *)
(** ** Facts about the placeholder pattern and the row renderer *)
(* ===================================================================== *)

Module RenderFacts.
Import PyStr Re Render StrFacts.

Lemma finditer_from_nil pos : finditer_from "" pos = [].
Proof. simp finditer_from. reflexivity. Qed.

Lemma finditer_from_cons c s pos :
  finditer_from (String c s) pos =
  match match_here (String c s) with
  | Some (k, rest) =>
      mk_match (pos, pos + 4 + len k) [k] :: finditer_from rest (pos + 4 + len k)
  | None => finditer_from s (S pos)
  end.
Proof.
  simp finditer_from.
  remember (inspect (match_here (String c s))) as i eqn:Hi. clear Hi.
  destruct i as [[[k rest]|] Heq]; simpl; rewrite Heq; reflexivity.
Qed.

Lemma substitute_nil rules : substitute rules "" = Ok "".
Proof. simp substitute. reflexivity. Qed.

Lemma substitute_cons rules c s :
  substitute rules (String c s) =
  match match_here (String c s) with
  | Some (k, rest) =>
      rbind (getitem rules k) (fun v =>
      rbind (substitute rules rest) (fun r => Ok (str v +:+ r)))
  | None => rbind (substitute rules s) (fun r => Ok (String c r))
  end.
Proof.
  simp substitute.
  remember (inspect (match_here (String c s))) as i eqn:Hi. clear Hi.
  destruct i as [[[k rest]|] Heq]; simpl; rewrite Heq; reflexivity.
Qed.

(** A match is the text of a placeholder: braces, name, braces. *)
Lemma lazy_group_app s k rest :
  lazy_group s = Some (k, rest) -> s = k +:+ "}}" +:+ rest.
Proof.
  revert k rest; induction s as [|c s IH]; intros k rest H; [discriminate|].
  cbn [lazy_group] in H.
  destruct (strip_prefix "}}" (String c s)) as [r|] eqn:E.
  - injection H as <- <-. apply strip_prefix_app in E. exact E.
  - destruct (Ascii.eqb c LF); [discriminate|].
    destruct (lazy_group s) as [[k' r']|]; [|discriminate].
    injection H as <- <-. rewrite app_cons. f_equal. apply IH. reflexivity.
Qed.

Lemma match_here_app s k rest :
  match_here s = Some (k, rest) -> s = "{{" +:+ k +:+ "}}" +:+ rest.
Proof.
  unfold match_here. intros H.
  destruct (strip_prefix "{{" s) as [s1|] eqn:E; [|discriminate].
  apply strip_prefix_app in E. apply lazy_group_app in H. subst. reflexivity.
Qed.

Lemma match_here_drop s k rest :
  match_here s = Some (k, rest) -> drop (4 + len k) s = rest.
Proof.
  intros H. apply match_here_app in H. subst s.
  change ("{{" +:+ k +:+ "}}" +:+ rest)
    with (String "{" (String "{" (k +:+ "}}" +:+ rest))).
  change (4 + len k) with (S (S (2 + len k))). cbn [drop].
  rewrite <- app_assoc.
  replace (2 + len k) with (String.length (k +:+ "}}")).
  - apply drop_app_length.
  - rewrite length_app. unfold len. simpl. lia.
Qed.

(** Every match reported from index [pos] on starts at [pos] or later. *)
Lemma finditer_from_head_ge s : forall pos m ms,
  finditer_from s pos = m :: ms -> pos <= fst (span m).
Proof.
  induction s as [|c s IH]; intros pos m ms H.
  - rewrite finditer_from_nil in H. discriminate.
  - rewrite finditer_from_cons in H.
    destruct (match_here (String c s)) as [[k rest]|].
    + injection H as <- _. simpl. lia.
    + apply IH in H. lia.
Qed.

(** Every match has exactly one group. *)
Lemma finditer_from_groups s : forall pos,
  Forall (fun m => exists k, groups m = [k]) (finditer_from s pos).
Proof.
  induction s as [s IH] using (well_founded_induction
    (well_founded_ltof _ String.length)).
  intros pos. destruct s as [|c s].
  - rewrite finditer_from_nil. constructor.
  - rewrite finditer_from_cons.
    destruct (match_here (String c s)) as [[k rest]|] eqn:E.
    + constructor; [exists k; reflexivity|].
      apply IH. unfold ltof. apply match_here_length in E. lia.
    + apply IH. unfold ltof. simpl. lia.
Qed.

(** The row put together from its edits: the text from the cursor up to
    the next edit, the text of the token, and so on to the end of the
    row. *)
Fixpoint interleave (row : string) (cur : nat)
    (edits : list ((nat * nat) * value)) : string :=
  match edits with
  | [] => slice row (Some cur) (Some (len row)) +:+ ""
  | (sp, token) :: edits' =>
      slice row (Some cur) (Some (fst sp)) +:+ str token
        +:+ interleave row (snd sp) edits'
  end.

(** The pieces of the row between consecutive spans. *)
Definition inverse_tokens (row : string) (first : bound * bound)
    (rest : list (bound * bound)) : list string :=
  map (fun ss => slice row (fst ss) (snd ss))
    (map (fun xy : (bound * bound) * (bound * bound) =>
            (snd (fst xy), fst (snd xy)))
       (zip (first :: rest) rest)).

Definition edit_spans (row : string) (edits : list ((nat * nat) * value))
  : list (bound * bound) :=
  map (fun x => (Some (fst (fst x)), Some (snd (fst x)))) edits
    ++ [(Some (len row), None)].

Lemma inverse_tokens_cons row first x rest :
  inverse_tokens row first (x :: rest)
  = slice row (snd first) (fst x) :: inverse_tokens row x rest.
Proof. reflexivity. Qed.

Lemma inverse_spans_fold row : forall edits acc prev cur,
  fold_left (fun new_row tu => new_row +:+ (fst tu +:+ snd tu))
    (zip_longest ""
       (inverse_tokens row (prev, Some cur) (edit_spans row edits))
       (map (fun x : (nat * nat) * value => str (snd x)) edits))
    acc
  = acc +:+ interleave row cur edits.
Proof.
  induction edits as [|[[a b] v] edits IH]; intros acc prev cur.
  - reflexivity.
  - change (edit_spans row ((a, b, v) :: edits))
      with ((Some a, Some b) :: edit_spans row edits).
    rewrite inverse_tokens_cons.
    cbn [map zip_longest fold_left fst snd].
    rewrite IH. cbn [interleave fst snd].
    rewrite !app_assoc. reflexivity.
Qed.

Lemma slice_whole row : slice row (Some 0) (Some (len row)) = row.
Proof.
  unfold slice, len. simpl. rewrite Nat.sub_0_r.
  apply take_all. lia.
Qed.

(** The row loop computes [interleave] over the edits of the row. *)
Lemma fill_row_interleave rules row :
  fill_row rules row =
  rbind (rmap (edit_of_match rules) (finditer row))
        (fun edits => Ok (interleave row 0 edits)).
Proof.
  unfold fill_row.
  destruct (rmap (edit_of_match rules) (finditer row)) as [edits|e];
    [|reflexivity].
  cbn [rbind]. destruct edits as [|e edits].
  - cbn [interleave]. rewrite slice_whole, app_nil_r. reflexivity.
  - f_equal.
    exact (inverse_spans_fold row (e :: edits) "" None 0).
Qed.

Lemma rmap_head {A B} (f : A -> result B) l ys :
  rmap f l = Ok ys ->
  match l, ys with
  | [], [] => True
  | x :: _, y :: _ => f x = Ok y
  | _, _ => False
  end.
Proof.
  destruct l as [|x l]; simpl.
  - intros [= <-]. exact I.
  - destruct (f x) as [y|e]; simpl; [|discriminate].
    destruct (rmap f l) as [ys'|e]; simpl; [|discriminate].
    intros [= <-]. reflexivity.
Qed.

Lemma edit_of_match_span rules m e :
  edit_of_match rules m = Ok e -> fst e = span m.
Proof.
  unfold edit_of_match.
  destruct (negb (length (groups m) =? 1)); [discriminate|].
  destruct (groups m) as [|key ?]; [discriminate|].
  destruct (getitem rules key); simpl; [|discriminate].
  intros [= <-]. reflexivity.
Qed.

Lemma slice_some row a b :
  slice row (Some a) (Some b) = take (b - a) (drop a row).
Proof. reflexivity. Qed.

(** Moving the cursor over a character that no edit covers. *)
Lemma interleave_shift row pos c s edits :
  drop pos row = String c s ->
  match edits with
  | [] => True
  | e :: _ => S pos <= fst (fst e)
  end ->
  interleave row pos edits = String c (interleave row (S pos) edits).
Proof.
  intros Hdrop Hhead.
  assert (Hs : drop (S pos) row = s).
  { replace (S pos) with (pos + 1) by lia.
    rewrite <- drop_drop, Hdrop. reflexivity. }
  assert (Hlen : len row - pos = S (len row - S pos)).
  { pose proof (length_drop pos row) as H1. rewrite Hdrop in H1.
    unfold len. simpl in H1. lia. }
  destruct edits as [|[[a b] v] edits]; cbn [interleave fst snd].
  - rewrite !slice_some, Hdrop, Hs, Hlen. reflexivity.
  - rewrite !slice_some, Hdrop, Hs.
    simpl in Hhead. replace (a - pos) with (S (a - S pos)) by lia.
    reflexivity.
Qed.

(** The edits found from index [pos] on, interleaved with the text, are the
    direct substitution of the text from [pos] on. *)
Lemma render_from rules row : forall s pos,
  drop pos row = s ->
  rbind (rmap (edit_of_match rules) (finditer_from s pos))
        (fun edits => Ok (interleave row pos edits))
  = substitute rules s.
Proof.
  induction s as [s IH] using (well_founded_induction
    (well_founded_ltof _ String.length)).
  intros pos Hdrop. destruct s as [|c s].
  - rewrite finditer_from_nil, substitute_nil. cbn [rmap rbind interleave].
    rewrite slice_some, Hdrop, take_nil. reflexivity.
  - rewrite finditer_from_cons, substitute_cons.
    destruct (match_here (String c s)) as [[k rest]|] eqn:E.
    + assert (Hrest : drop (pos + 4 + len k) row = rest).
      { replace (pos + 4 + len k) with (pos + (4 + len k)) by lia.
        rewrite <- drop_drop, Hdrop. apply match_here_drop. exact E. }
      specialize (IH rest).
      assert (Hlt : ltof _ String.length rest (String c s)).
      { unfold ltof. apply match_here_length in E. lia. }
      specialize (IH Hlt _ Hrest). rewrite <- IH.
      cbn [rmap]. unfold edit_of_match at 1. cbn [groups span length Nat.eqb negb].
      destruct (getitem rules k) as [v|e]; cbn [rbind]; [|reflexivity].
      destruct (rmap (edit_of_match rules) (finditer_from rest (pos + 4 + len k)))
        as [edits|e]; cbn [rbind]; [|reflexivity].
      cbn [interleave fst snd]. rewrite slice_some, Nat.sub_diag, take_0.
      reflexivity.
    + assert (Hs : drop (S pos) row = s).
      { replace (S pos) with (pos + 1) by lia.
        rewrite <- drop_drop, Hdrop. reflexivity. }
      assert (Hlt : ltof _ String.length s (String c s)).
      { unfold ltof. simpl. lia. }
      rewrite <- (IH s Hlt (S pos) Hs).
      destruct (rmap (edit_of_match rules) (finditer_from s (S pos)))
        as [edits|e] eqn:Er; cbn [rbind]; [|reflexivity].
      f_equal. apply (interleave_shift row pos c s); [exact Hdrop|].
      apply rmap_head in Er.
      destruct (finditer_from s (S pos)) as [|m ms] eqn:Ef;
        destruct edits as [|e edits]; try exact I; try contradiction.
      apply edit_of_match_span in Er. rewrite Er.
      apply (finditer_from_head_ge s (S pos) m ms Ef).
Qed.

(** The row loop is the direct substitution. *)
Lemma fill_row_substitute rules row :
  fill_row rules row = substitute rules row.
Proof.
  rewrite fill_row_interleave. apply render_from. reflexivity.
Qed.

(** *** Exceptions of the row loop *)

Lemma rmap_raise {A B} (f : A -> result B) l e :
  rmap f l = Raise e -> exists x, In x l /\ f x = Raise e.
Proof.
  induction l as [|x l IH]; simpl; [discriminate|].
  destruct (f x) as [y|e'] eqn:Ex; simpl.
  - destruct (rmap f l) as [ys|e'']; simpl; [discriminate|].
    intros [= <-]. destruct (IH eq_refl) as (x' & Hin & Hx').
    exists x'. auto.
  - intros [= <-]. exists x. auto.
Qed.

Lemma rmap_raises {A B} (f : A -> result B) l x e :
  In x l -> f x = Raise e -> exists e', rmap f l = Raise e'.
Proof.
  induction l as [|y l IH]; simpl; [contradiction|].
  intros [->|Hin] Hx.
  - rewrite Hx. simpl. eauto.
  - destruct (f y) as [z|e']; simpl; [|eauto].
    destruct (IH Hin Hx) as [e' ->]. simpl. eauto.
Qed.

Lemma rmap_length {A B} (f : A -> result B) l ys :
  rmap f l = Ok ys -> length ys = length l.
Proof.
  revert ys; induction l as [|x l IH]; intros ys; simpl.
  - intros [= <-]. reflexivity.
  - destruct (f x) as [y|e]; simpl; [|discriminate].
    destruct (rmap f l) as [ys'|e]; simpl; [|discriminate].
    intros [= <-]. simpl. f_equal. apply IH. reflexivity.
Qed.

Lemma rmap_id {A} (f : A -> result A) l :
  Forall (fun x => f x = Ok x) l -> rmap f l = Ok l.
Proof.
  induction 1 as [|x l Hx _ IH]; simpl; [reflexivity|].
  rewrite Hx, IH. reflexivity.
Qed.

(** A name the row refers to: the group of one of its matches. *)
Definition refers_to (row k : string) : Prop :=
  exists m, In m (finditer row) /\ groups m = [k].

Lemma edit_of_match_raise rules m e :
  (exists k, groups m = [k]) ->
  edit_of_match rules m = Raise e ->
  exists k, groups m = [k] /\ rules !! k = None /\ e = KeyError k.
Proof.
  intros [k Hk]. unfold edit_of_match, getitem. rewrite Hk. simpl.
  destruct (rules !! k) eqn:E; simpl; [discriminate|].
  intros [= <-]. exists k. auto.
Qed.

Lemma edit_of_match_missing rules m k :
  groups m = [k] -> rules !! k = None ->
  edit_of_match rules m = Raise (KeyError k).
Proof.
  intros Hk Hnone. unfold edit_of_match, getitem. rewrite Hk. simpl.
  rewrite Hnone. reflexivity.
Qed.

Lemma fill_row_raise rules row e :
  fill_row rules row = Raise e ->
  exists k, refers_to row k /\ rules !! k = None /\ e = KeyError k.
Proof.
  unfold fill_row. intros H.
  destruct (rmap (edit_of_match rules) (finditer row)) as [edits|e'] eqn:E.
  - simpl in H. destruct edits; discriminate.
  - simpl in H. injection H as <-.
    apply rmap_raise in E as (m & Hin & Hm).
    apply edit_of_match_raise in Hm as (k & Hk & Hnone & ->).
    + exists k. split; [exists m; auto|auto].
    + pose proof (finditer_from_groups row 0) as HF.
      rewrite Forall_forall in HF. apply HF, list_elem_of_In, Hin.
Qed.

Lemma fill_row_missing rules row k :
  refers_to row k -> rules !! k = None ->
  exists e, fill_row rules row = Raise e.
Proof.
  intros (m & Hin & Hk) Hnone. unfold fill_row.
  destruct (rmap_raises (edit_of_match rules) (finditer row) m (KeyError k) Hin
              (edit_of_match_missing rules m k Hk Hnone)) as [e ->].
  exists e. reflexivity.
Qed.

(** A template that refers to a name without a rule does not render: the
    row loop raises [KeyError] for such a name. *)
Lemma fill_rows_missing rules template :
  (exists row k, In row template /\ refers_to row k /\ rules !! k = None) ->
  exists row k, In row template /\ refers_to row k /\ rules !! k = None /\
    fill_rows rules template = Raise (KeyError k).
Proof.
  intros (row & k & Hin & Href & Hnone). unfold fill_rows.
  destruct (fill_row_missing rules row k Href Hnone) as [e He].
  destruct (rmap_raises (fill_row rules) template row e Hin He) as [e' He'].
  rewrite He'.
  apply rmap_raise in He' as (row' & Hin' & Hrow').
  apply fill_row_raise in Hrow' as (k' & Href' & Hnone' & ->).
  exists row', k'. auto.
Qed.

(** *** Rows without a placeholder *)

Lemma fill_row_no_match rules row :
  finditer row = [] -> fill_row rules row = Ok row.
Proof. intros H. unfold fill_row. rewrite H. reflexivity. Qed.

Lemma fill_rows_no_match rules template :
  Forall (fun row => finditer row = []) template ->
  fill_rows rules template = Ok template.
Proof.
  intros H. apply rmap_id. eapply Forall_impl; [exact H|].
  intros row. apply fill_row_no_match.
Qed.

(** *** Lines of a text *)

Lemma last_char_cons c a s : last_char (String c (String a s)) = last_char (String a s).
Proof. reflexivity. Qed.

Lemma last_char_none s : last_char s = None -> s = "".
Proof.
  induction s as [|c s IH]; [reflexivity|].
  destruct s as [|a s]; [discriminate|].
  rewrite last_char_cons. intros H. apply IH in H. discriminate.
Qed.

Lemma last_char_app_cons s a t :
  last_char (s +:+ String a t) = last_char (String a t).
Proof.
  induction s as [|c s IH]; [reflexivity|].
  rewrite app_cons.
  destruct (s +:+ String a t) eqn:E.
  - destruct s; discriminate.
  - rewrite last_char_cons. exact IH.
Qed.

Lemma last_char_app s t : t <> "" -> last_char (s +:+ t) = last_char t.
Proof.
  destruct t as [|a t]; [congruence|]. intros _. apply last_char_app_cons.
Qed.

Lemma splitlines_cons a s :
  splitlines (String a s) =
  if is_line_boundary a then
    "" :: (if Ascii.eqb a CR then
             match s with
             | String c2 s'' =>
                 if Ascii.eqb c2 LF then splitlines s'' else splitlines s
             | EmptyString => splitlines s
             end
           else splitlines s)
  else
    match splitlines s with
    | [] => [String a ""]
    | l :: ls => String a l :: ls
    end.
Proof. reflexivity. Qed.

(** One final newline after a text that does not end in a line boundary
    opens no further line. *)
Lemma splitlines_final_newline t c :
  last_char t = Some c -> is_line_boundary c = false ->
  splitlines (t +:+ String LF "") = splitlines t.
Proof.
  induction t as [t IH] using (well_founded_induction
    (well_founded_ltof _ String.length)).
  intros Hlast Hc. destruct t as [|a t]; [discriminate|].
  destruct t as [|b t].
  - injection Hlast as ->. simpl. rewrite Hc. reflexivity.
  - rewrite last_char_cons in Hlast.
    assert (IHt : splitlines (String b t +:+ String LF "")
                  = splitlines (String b t)).
    { apply IH; [unfold ltof; simpl; lia|exact Hlast|exact Hc]. }
    rewrite app_cons.
    rewrite (splitlines_cons a (String b t +:+ String LF "")).
    rewrite (splitlines_cons a (String b t)).
    rewrite IHt.
    destruct (is_line_boundary a); [|reflexivity].
    f_equal. destruct (Ascii.eqb a CR); [|reflexivity].
    rewrite app_cons. cbv iota beta.
    destruct (Ascii.eqb b LF) eqn:Eb; [|reflexivity].
    destruct t as [|b' t].
    + apply Ascii.eqb_eq in Eb. subst b. injection Hlast as <-.
      discriminate Hc.
    + apply IH; [unfold ltof; simpl; lia| |exact Hc].
      rewrite last_char_cons in Hlast. exact Hlast.
Qed.

(** No row of [splitlines] holds a newline. *)
Lemma splitlines_no_newline t :
  Forall (fun row => has_char LF row = false) (splitlines t).
Proof.
  induction t as [t IH] using (well_founded_induction
    (well_founded_ltof _ String.length)).
  destruct t as [|a t]; [constructor|].
  assert (IHt : Forall (fun row => has_char LF row = false) (splitlines t)).
  { apply IH. unfold ltof. simpl. lia. }
  rewrite splitlines_cons. destruct (is_line_boundary a) eqn:Ea.
  - constructor; [reflexivity|].
    destruct (Ascii.eqb a CR); [|exact IHt].
    destruct t as [|b t]; [exact IHt|].
    destruct (Ascii.eqb b LF); [|exact IHt].
    apply IH. unfold ltof. simpl. lia.
  - assert (Ha : Ascii.eqb a LF = false).
    { destruct (Ascii.eqb a LF) eqn:E; [|reflexivity].
      apply Ascii.eqb_eq in E. subst a. discriminate Ea. }
    destruct (splitlines t) as [|l ls].
    + constructor; [|constructor]. simpl. rewrite Ha. reflexivity.
    + inversion IHt as [|? ? Hl Hls]; subst. constructor; [|exact Hls].
      simpl. rewrite Ha. exact Hl.
Qed.

Lemma last_char_no_newline s :
  has_char LF s = false -> last_char s <> Some LF.
Proof.
  induction s as [|a s IH]; [discriminate|].
  simpl. intros H. apply orb_false_iff in H as [Ha Hs].
  destruct s as [|b s].
  - intros [= ->]. discriminate Ha.
  - apply IH. exact Hs.
Qed.

Lemma last_char_join sep l r :
  last l = Some r -> r <> "" -> last_char (join sep l) = last_char r.
Proof.
  induction l as [|x l IH]; [discriminate|].
  destruct l as [|y l].
  - simpl. intros [= ->] _. reflexivity.
  - intros Hlast Hr. rewrite join_cons2.
    change (last (x :: y :: l)) with (last (y :: l)) in Hlast.
    specialize (IH Hlast Hr).
    rewrite <- app_assoc. rewrite last_char_app; [exact IH|].
    intros E. rewrite E in IH. symmetry in IH.
    apply last_char_none in IH. contradiction.
Qed.

Lemma rmap_last {A B} (f : A -> result B) l ys x :
  rmap f l = Ok ys -> last l = Some x ->
  exists y, f x = Ok y /\ last ys = Some y.
Proof.
  revert ys; induction l as [|a l IH]; intros ys; [discriminate|].
  simpl. destruct (f a) as [b|e] eqn:Ea; simpl; [|discriminate].
  destruct (rmap f l) as [ys'|e] eqn:El; simpl; [|discriminate].
  intros [= <-] Hlast. destruct l as [|a' l].
  - injection Hlast as <-. simpl in El. injection El as <-.
    exists b. auto.
  - change (last (a :: a' :: l)) with (last (a' :: l)) in Hlast.
    destruct (IH ys' eq_refl Hlast) as (y & Hy & Hl).
    exists y. split; [exact Hy|].
    destruct ys' as [|b' ys']; [discriminate|]. exact Hl.
Qed.

End RenderFacts.

(* ===================================================================== *)
(** ** Facts about paths and the world *)
(* ===================================================================== *)

Module WorldFacts.
Import PyStr PurePath World StrFacts.

Lemma bind_ok {A B} (c : M A) (f : A -> M B) w b w' :
  bind c f w = (Ok b, w') ->
  exists a w1, c w = (Ok a, w1) /\ f a w1 = (Ok b, w').
Proof.
  unfold bind. destruct (c w) as [[a|e] w1]; [|discriminate].
  intros H. exists a, w1. auto.
Qed.

Lemma lift_ok {A} (r : result A) w a w' :
  lift r w = (Ok a, w') -> r = Ok a /\ w' = w.
Proof. unfold lift. intros [= -> ->]. auto. Qed.

Lemma ret_ok {A} (x : A) w a w' :
  ret x w = (Ok a, w') -> a = x /\ w' = w.
Proof. unfold ret. intros [= -> ->]. auto. Qed.

Lemma for_fold_nil {A S} (body : S -> A -> M S) acc w :
  for_fold body [] acc w = (Ok acc, w).
Proof. reflexivity. Qed.

Lemma for_fold_cons_ok {A S} (body : S -> A -> M S) x l acc w r w' :
  for_fold body (x :: l) acc w = (Ok r, w') ->
  exists acc1 w1, body acc x w = (Ok acc1, w1)
                  /\ for_fold body l acc1 w1 = (Ok r, w').
Proof. cbn [for_fold]. apply bind_ok. Qed.

Lemma strip_parts_app pre l : strip_parts pre (pre ++ l) = Some l.
Proof.
  induction pre as [|a pre IH]; [reflexivity|].
  simpl. rewrite String.eqb_refl. exact IH.
Qed.

(** A path made by joining a relative path to [p] is relative to [p] by
    that path. *)
Lemma relative_to_joinpath p q :
  root q = "" ->
  relative_to (joinpath p q) p = Ok (mk_path "" (parts q)).
Proof.
  intros Hq. unfold joinpath, relative_to. rewrite Hq. simpl.
  rewrite String.eqb_refl, strip_parts_app. reflexivity.
Qed.

End WorldFacts.

(* ===================================================================== *)
(** ** Facts about [str.replace] and paths *)
(* ===================================================================== *)

Module PathFacts.
Import PyStr PurePath World Yaspi StrFacts WorldFacts.

Lemma replace_nonempty_nil a old' new : replace_nonempty a old' new "" = "".
Proof. simp replace_nonempty. reflexivity. Qed.

Lemma replace_nonempty_cons a old' new c s :
  replace_nonempty a old' new (String c s) =
  match strip_prefix (String a old') (String c s) with
  | Some rest => new +:+ replace_nonempty a old' new rest
  | None => String c (replace_nonempty a old' new s)
  end.
Proof.
  simp replace_nonempty.
  remember (inspect (strip_prefix (String a old') (String c s))) as i eqn:Hi.
  clear Hi.
  destruct i as [[rest|] Heq]; unfold replace_nonempty_unfold_clause_2;
    rewrite Heq; reflexivity.
Qed.

Lemma has_char_app c s t : has_char c (s +:+ t) = has_char c s || has_char c t.
Proof.
  induction s as [|b s IH]; [reflexivity|].
  rewrite app_cons. cbn [has_char]. rewrite IH. apply orb_assoc.
Qed.

(** *** [split_on] *)

Lemma split_on_cons sep c s :
  split_on sep (String c s) =
  if Ascii.eqb c sep then "" :: split_on sep s
  else match split_on sep s with
       | [] => [String c ""]
       | l :: ls => String c l :: ls
       end.
Proof. reflexivity. Qed.

Lemma split_on_form sep s : exists l ls, split_on sep s = l :: ls.
Proof.
  induction s as [|c s (l & ls & IH)]; [exists "", []; reflexivity|].
  rewrite split_on_cons, IH. destruct (Ascii.eqb c sep); eauto.
Qed.

(** A text free of the separator goes to the first piece. *)
Lemma split_on_app_free sep u t l ls :
  has_char sep u = false ->
  split_on sep t = l :: ls ->
  split_on sep (u +:+ t) = (u +:+ l) :: ls.
Proof.
  intros Hu Ht. induction u as [|c u IH]; [exact Ht|].
  cbn [has_char] in Hu. apply orb_false_iff in Hu as [Hc Hu].
  rewrite app_cons, split_on_cons, Hc, (IH Hu). reflexivity.
Qed.

(** The first piece is free of the separator and opens the text. *)
Lemma split_on_head sep s l ls :
  split_on sep s = l :: ls ->
  has_char sep l = false /\ exists tail, s = l +:+ tail.
Proof.
  revert l ls; induction s as [|c s IH]; intros l ls H.
  - injection H as <- <-. split; [reflexivity|exists ""; reflexivity].
  - rewrite split_on_cons in H. destruct (Ascii.eqb c sep) eqn:Ec.
    + injection H as <- <-. split; [reflexivity|eexists; reflexivity].
    + destruct (split_on_form sep s) as (l' & ls' & E). rewrite E in H.
      injection H as <- <-. destruct (IH _ _ E) as (Hl & tail & ->).
      split; [cbn [has_char]; rewrite Ec; exact Hl|].
      exists tail. reflexivity.
Qed.

Lemma split_on_free sep s :
  Forall (fun c => has_char sep c = false) (split_on sep s).
Proof.
  induction s as [|c s IH]; [repeat constructor|].
  rewrite split_on_cons. destruct (Ascii.eqb c sep) eqn:Ec.
  - constructor; [reflexivity|exact IH].
  - destruct (split_on sep s) as [|l ls]; [repeat constructor|].
    + cbn [has_char]. rewrite Ec. reflexivity.
    + inversion IH; subst. constructor; [|assumption].
      cbn [has_char]. rewrite Ec. assumption.
Qed.

Lemma split_on_join sep l :
  l <> [] ->
  Forall (fun c => has_char sep c = false) l ->
  split_on sep (join (String sep "") l) = l.
Proof.
  intros Hne Hall. induction Hall as [|x l Hx Hall IH]; [congruence|].
  destruct l as [|y l].
  - cbn [join]. rewrite <- (app_nil_r x) at 1.
    rewrite (split_on_app_free sep x "" "" [] Hx eq_refl).
    rewrite app_nil_r. reflexivity.
  - rewrite join_cons2.
    rewrite (split_on_app_free sep x _ "" (y :: l) Hx).
    + rewrite app_nil_r. reflexivity.
    + rewrite app_cons, app_nil_l, split_on_cons, Ascii.eqb_refl.
      rewrite IH by congruence. reflexivity.
Qed.

Lemma strip_prefix_app_none p s t :
  strip_prefix p (s +:+ t) = None -> strip_prefix p s = None.
Proof.
  revert s; induction p as [|a p IH]; intros s H; [discriminate|].
  destruct s as [|b s]; [reflexivity|].
  rewrite app_cons in H. cbn [strip_prefix] in *.
  destruct (Ascii.eqb a b); [apply IH, H|reflexivity].
Qed.

(** *** Replacing the index placeholder *)

Section Repl.
Variable new : string.
Hypothesis new_free : has_char "/" new = false.
Hypothesis new_long : 4 <= String.length new.

(** [s.replace("%4a", new)] *)
Definition repl (s : string) : string := replace s "%4a" new.

Lemma repl_nil : repl "" = "".
Proof. apply replace_nonempty_nil. Qed.

Lemma repl_cons c s :
  repl (String c s) =
  match strip_prefix "%4a" (String c s) with
  | Some rest => new +:+ repl rest
  | None => String c (repl s)
  end.
Proof. apply replace_nonempty_cons. Qed.

Lemma repl_hit rest : repl ("%4a" +:+ rest) = new +:+ repl rest.
Proof.
  change ("%4a" +:+ rest) with (String "%" ("4a" +:+ rest)).
  rewrite repl_cons.
  change (String "%" ("4a" +:+ rest)) with ("%4a" +:+ rest).
  rewrite strip_prefix_app_same. reflexivity.
Qed.

Lemma repl_slash s : repl (String "/" s) = String "/" (repl s).
Proof. rewrite repl_cons. reflexivity. Qed.

(** A text shorter than the placeholder is left as it is. *)
Lemma repl_short s : String.length s < 3 -> repl s = s.
Proof.
  induction s as [|c s IH]; intros Hlen; [apply repl_nil|].
  rewrite repl_cons.
  destruct (strip_prefix "%4a" (String c s)) as [rest|] eqn:E.
  - apply strip_prefix_length in E. simpl in *. lia.
  - rewrite IH; [reflexivity|]. simpl in Hlen. lia.
Qed.

(** A text is left as it is, or what is made of it has room for [new]. *)
Lemma repl_cases s :
  repl s = s \/ String.length new <= String.length (repl s).
Proof.
  induction s as [s IH] using
    (well_founded_induction (well_founded_ltof _ String.length)).
  destruct s as [|c s]; [left; apply repl_nil|].
  rewrite repl_cons.
  destruct (strip_prefix "%4a" (String c s)) as [rest|] eqn:E.
  - right. rewrite length_app. lia.
  - destruct (IH s) as [H|H]; [unfold ltof; simpl; lia| |].
    + left. rewrite H. reflexivity.
    + right. simpl. lia.
Qed.

Lemma repl_eqb_short c t :
  String.length t < 3 -> String.eqb (repl c) t = String.eqb c t.
Proof.
  intros Ht.
  destruct (String.eqb_spec c t) as [->|Hne].
  - rewrite (repl_short t Ht). apply String.eqb_refl.
  - apply String.eqb_neq. intros H.
    destruct (repl_cases c) as [E|E]; [congruence|].
    rewrite H in E. lia.
Qed.

Lemma is_component_repl c : is_component (repl c) = is_component c.
Proof.
  unfold is_component. rewrite !repl_eqb_short by (simpl; lia). reflexivity.
Qed.

Lemma split_on_repl s :
  split_on "/" (repl s) = map repl (split_on "/" s).
Proof.
  induction s as [s IH] using
    (well_founded_induction (well_founded_ltof _ String.length)).
  destruct s as [|c s]; [rewrite repl_nil; reflexivity|].
  rewrite repl_cons.
  destruct (strip_prefix "%4a" (String c s)) as [rest|] eqn:E.
  - pose proof (strip_prefix_length _ _ _ E) as Hlen.
    apply strip_prefix_app in E. rewrite E.
    destruct (split_on_form "/" rest) as (l & ls & Hrest).
    assert (Hr : split_on "/" (repl rest) = repl l :: map repl ls).
    { rewrite IH, Hrest; [reflexivity|]. unfold ltof. simpl in *. lia. }
    rewrite (split_on_app_free "/" new _ _ _ new_free Hr).
    rewrite (split_on_app_free "/" "%4a" _ _ _ eq_refl Hrest).
    cbn [map]. rewrite repl_hit. reflexivity.
  - rewrite !split_on_cons.
    destruct (split_on_form "/" s) as (l & ls & Hs).
    assert (Hr : split_on "/" (repl s) = repl l :: map repl ls).
    { rewrite IH, Hs; [reflexivity|]. unfold ltof. simpl. lia. }
    rewrite Hr, Hs.
    destruct (Ascii.eqb c "/"); cbn [map]; [rewrite repl_nil; reflexivity|].
    f_equal. rewrite repl_cons.
    destruct (split_on_head _ _ _ _ Hs) as (_ & tail & ->).
    rewrite <- app_cons in E. rewrite (strip_prefix_app_none _ _ _ E).
    reflexivity.
Qed.

Lemma lstrip_count_free s :
  match s with
  | EmptyString => True
  | String c _ => Ascii.eqb c "/" = false
  end ->
  lstrip_count "/" s = (0, s).
Proof. destruct s as [|c s]; [reflexivity|]. simpl. intros ->. reflexivity. Qed.

Lemma lstrip_count_repl s :
  lstrip_count "/" (repl s)
  = (fst (lstrip_count "/" s), repl (snd (lstrip_count "/" s))).
Proof.
  induction s as [|c s IH]; [rewrite repl_nil; reflexivity|].
  destruct (Ascii.eqb c "/") eqn:Ec.
  - apply Ascii.eqb_eq in Ec. subst c. rewrite repl_slash.
    cbn [lstrip_count]. rewrite Ascii.eqb_refl, IH.
    destruct (lstrip_count "/" s) as [n r]. reflexivity.
  - cbn [lstrip_count]. rewrite Ec. cbn [fst snd].
    apply lstrip_count_free. rewrite repl_cons.
    destruct (strip_prefix "%4a" (String c s)) as [rest|]; [|exact Ec].
    destruct new as [|n0 new']; [simpl in new_long; lia|].
    rewrite app_cons. cbn [has_char] in new_free.
    apply orb_false_iff in new_free as [H _]. exact H.
Qed.

Lemma filter_component_repl l :
  List.filter is_component (map repl l) = map repl (List.filter is_component l).
Proof.
  induction l as [|x l IH]; [reflexivity|].
  cbn [map List.filter]. rewrite is_component_repl, IH.
  destruct (is_component x); reflexivity.
Qed.

(** Replacing in the text of a path replaces in each of its components. *)
Lemma parse_path_repl s :
  parse_path (repl s)
  = mk_path (root (parse_path s)) (map repl (parts (parse_path s))).
Proof.
  unfold parse_path. rewrite lstrip_count_repl.
  destruct (lstrip_count "/" s) as [n rel]. cbn [fst snd root parts].
  rewrite split_on_repl, filter_component_repl. reflexivity.
Qed.

End Repl.

(** *** Paths and their text *)

(** What [Path(s)] makes: a root of no, one or two slashes, and components
    that are not empty, not [.], and hold no slash. *)
Definition wf_path (p : path) : Prop :=
  (root p = "" \/ root p = "/" \/ root p = "//")
  /\ Forall (fun c => is_component c = true /\ has_char "/" c = false) (parts p).

Lemma wf_parse_path s : wf_path (parse_path s).
Proof.
  unfold parse_path. destruct (lstrip_count "/" s) as [n rel].
  split; cbn [root parts].
  - destruct n as [|[|[|n]]]; auto.
  - pose proof (split_on_free "/" rel) as Hfree.
    induction Hfree as [|x l Hx Hfree IH]; [constructor|].
    cbn [List.filter]. destruct (is_component x) eqn:Ex; [|exact IH].
    constructor; [split; assumption|exact IH].
Qed.

Lemma wf_joinpath p q : wf_path p -> wf_path q -> wf_path (joinpath p q).
Proof.
  intros [Hp1 Hp2] [Hq1 Hq2]. unfold joinpath.
  destruct (String.eqb (root q) ""); [|split; assumption].
  split; [exact Hp1|]. cbn [parts]. apply Forall_app. split; assumption.
Qed.

Lemma Forall_removelast {A} (P : A -> Prop) l :
  Forall P l -> Forall P (removelast l).
Proof.
  induction 1 as [|x l Hx Hl IH]; [constructor|].
  destruct l as [|y l]; [constructor|].
  change (removelast (x :: y :: l)) with (x :: removelast (y :: l)).
  constructor; assumption.
Qed.

Lemma wf_parent p : wf_path p -> wf_path (parent p).
Proof.
  intros [H1 H2]. split; [exact H1|]. apply Forall_removelast, H2.
Qed.

Lemma filter_all {A} (f : A -> bool) l :
  Forall (fun x => f x = true) l -> List.filter f l = l.
Proof.
  induction 1 as [|x l Hx _ IH]; [reflexivity|].
  cbn [List.filter]. rewrite Hx, IH. reflexivity.
Qed.

Lemma join_head sep x l : exists tail, join sep (x :: l) = x +:+ tail.
Proof.
  destruct l as [|y l]; [exists ""; symmetry; apply app_nil_r|].
  rewrite join_cons2. eauto.
Qed.

(** The text of a path reads back as the path. *)
Lemma parse_path_to_str p : wf_path p -> parse_path (to_str p) = p.
Proof.
  destruct p as [r ps]. intros [Hr Hps]. cbn [root parts] in *.
  unfold to_str. cbn [root parts].
  destruct ps as [|x l].
  - destruct Hr as [->|[->| ->]]; reflexivity.
  - set (J := join "/" (x :: l)).
    assert (HJ : lstrip_count "/" J = (0, J)).
    { apply lstrip_count_free. unfold J.
      destruct (join_head "/" x l) as (tail & ->).
      inversion Hps as [|? ? [Hx1 Hx2] _]; subst.
      destruct x as [|c x]; [discriminate|].
      rewrite app_cons. cbn [has_char] in Hx2.
      apply orb_false_iff in Hx2 as [H _]. exact H. }
    assert (Hsplit : List.filter is_component (split_on "/" J) = x :: l).
    { unfold J. rewrite split_on_join; [|congruence|].
      - apply filter_all. eapply Forall_impl; [exact Hps|].
        intros c [H _]. exact H.
      - eapply Forall_impl; [exact Hps|]. intros c [_ H]. exact H. }
    unfold parse_path.
    destruct Hr as [->|[->| ->]].
    + rewrite app_nil_l, HJ, Hsplit. reflexivity.
    + change ("/" +:+ J) with (String "/" J). cbn [lstrip_count].
      rewrite Ascii.eqb_refl, HJ, Hsplit. reflexivity.
    + change ("//" +:+ J) with (String "/" (String "/" J)). cbn [lstrip_count].
      rewrite Ascii.eqb_refl, HJ, Hsplit. reflexivity.
Qed.

(** *** Resolving *)

(** The step of [resolve_parts]. *)
Lemma resolve_parts_step cwd p :
  resolve_parts cwd p
  = fold_left step (parts p) (if String.eqb (root p) "" then cwd else []).
Proof. reflexivity. Qed.

Lemma resolve_parts_snoc cwd r ds x :
  String.eqb x ".." = false ->
  resolve_parts cwd (mk_path r (ds ++ [x]))
  = resolve_parts cwd (mk_path r ds) ++ [x].
Proof.
  intros Hx. rewrite !resolve_parts_step. cbn [parts root].
  rewrite fold_left_app. cbn [fold_left]. unfold step at 1. rewrite Hx.
  reflexivity.
Qed.

Lemma length_removelast {A} (l : list A) :
  length (removelast l) = length l - 1.
Proof.
  induction l as [|x l IH]; [reflexivity|].
  destruct l as [|y l]; [reflexivity|].
  change (removelast (x :: y :: l)) with (x :: removelast (y :: l)).
  cbn [length] in *. lia.
Qed.

(** The number of components resolving gives depends on which components
    are [..] only. *)
Lemma length_fold_step {A} (f g : A -> string) : forall l acc acc',
  length acc = length acc' ->
  (forall x, String.eqb (f x) ".." = String.eqb (g x) "..") ->
  length (fold_left step (map f l) acc)
  = length (fold_left step (map g l) acc').
Proof.
  induction l as [|x l IH]; intros acc acc' Hlen Hfg; [exact Hlen|].
  cbn [map fold_left]. apply IH; [|exact Hfg].
  unfold step. rewrite (Hfg x). destruct (String.eqb (g x) "..").
  - rewrite !length_removelast. lia.
  - rewrite !List.length_app. cbn [length]. lia.
Qed.

(** *** The index as text *)

Lemma has_char_zeros c n :
  Ascii.eqb "0" c = false -> has_char c (zeros n) = false.
Proof.
  intros Hc. induction n as [|n IH]; [reflexivity|].
  cbn [zeros has_char]. rewrite Hc, IH. reflexivity.
Qed.

Lemma length_zeros n : String.length (zeros n) = n.
Proof.
  induction n as [|n IH]; [reflexivity|]. simpl. rewrite IH. reflexivity.
Qed.

Lemma has_char_uint d :
  has_char "/" (NilEmpty.string_of_uint d) = false.
Proof. induction d; simpl; auto. Qed.

Lemma has_char_str_of_int n :
  (0 <= n)%Z -> has_char "/" (str_of_int n) = false.
Proof.
  intros Hn. unfold str_of_int. destruct n as [|p|p]; [reflexivity| |lia].
  unfold Z.to_int, NilZero.string_of_int, NilZero.string_of_uint.
  destruct (Pos.to_uint p); try apply has_char_uint; reflexivity.
Qed.

Lemma format_04d_free n : has_char "/" (format_04d n) = false.
Proof.
  unfold format_04d. rewrite !has_char_app.
  rewrite has_char_zeros by reflexivity.
  rewrite has_char_str_of_int by lia.
  destruct (n <? 0)%Z; reflexivity.
Qed.

Lemma format_04d_long n : 4 <= String.length (format_04d n).
Proof.
  unfold format_04d. rewrite !length_app, length_zeros. unfold len. lia.
Qed.

End PathFacts.

(* ===================================================================== *)
(** ** Facts about the file system operations *)
(* ===================================================================== *)

Module FsFacts.
Import PyStr PurePath World Yaspi StrFacts WorldFacts PathFacts.

(** Every entry of [f] is an entry of [f']. *)
Definition grows (f f' : gmap (list string) node) : Prop :=
  forall k n, f !! k = Some n -> f' !! k = Some n.

Lemma grows_refl f : grows f f.
Proof. intros k n H. exact H. Qed.

Lemma grows_trans f g h : grows f g -> grows g h -> grows f h.
Proof. intros H1 H2 k n H. apply H2, H1, H. Qed.

(** Every directory of [f] is a directory of [f']. *)
Definition keeps_dirs (f f' : gmap (list string) node) : Prop :=
  forall k, lookup_node f k = Some Dir -> lookup_node f' k = Some Dir.

Lemma lookup_node_cons f x k : lookup_node f (x :: k) = f !! (x :: k).
Proof. reflexivity. Qed.

Lemma lookup_node_keeps f f' :
  grows f f' ->
  forall k n, lookup_node f k = Some n -> lookup_node f' k = Some n.
Proof. intros H [|x k] n; [trivial|]. apply H. Qed.

Lemma grows_keeps_dirs f f' : grows f f' -> keeps_dirs f f'.
Proof. intros H k. apply lookup_node_keeps, H. Qed.

Lemma lookup_node_insert_ne f k k' n :
  k <> k' -> lookup_node (<[k := n]> f) k' = lookup_node f k'.
Proof.
  intros Hne. destruct k' as [|x k']; [reflexivity|].
  rewrite !lookup_node_cons. apply lookup_insert_ne. exact Hne.
Qed.

Lemma lookup_node_insert_eq f k n :
  k <> [] -> lookup_node (<[k := n]> f) k = Some n.
Proof.
  destruct k as [|x k]; [congruence|]. intros _.
  rewrite lookup_node_cons. apply lookup_insert_eq.
Qed.

Lemma lookup_node_delete_ne f k k' :
  k <> k' -> lookup_node (delete k f) k' = lookup_node f k'.
Proof.
  intros Hne. destruct k' as [|x k']; [reflexivity|].
  rewrite !lookup_node_cons. apply lookup_delete_ne. exact Hne.
Qed.

Lemma lookup_node_delete_eq f k :
  k <> [] -> lookup_node (delete k f) k = None.
Proof.
  destruct k as [|x k]; [congruence|]. intros _.
  rewrite lookup_node_cons. apply lookup_delete_eq.
Qed.

Lemma lookup_node_absent f k : lookup_node f k = None -> k <> [].
Proof. intros H ->. discriminate. Qed.

Lemma lookup_node_file f k c m : lookup_node f k = Some (File c m) -> k <> [].
Proof. intros H ->. discriminate. Qed.

Lemma lookup_node_snoc f k x : lookup_node f (k ++ [x]) = f !! (k ++ [x]).
Proof. destruct k; reflexivity. Qed.

Lemma insert_absent_grows f k n : lookup_node f k = None -> grows f (<[k := n]> f).
Proof.
  intros Hk k' n' H. rewrite lookup_insert_ne; [exact H|].
  intros ->. destruct k' as [|x k']; [discriminate|].
  rewrite lookup_node_cons in Hk. congruence.
Qed.

(** *** The lookup of a path *)

Lemma dirwalk_key f : forall comps cur k,
  dirwalk f cur comps = inr k -> k = fold_left step comps cur.
Proof.
  induction comps as [|x comps IH]; intros cur k H; cbn [dirwalk] in H.
  - injection H as <-. reflexivity.
  - cbn [fold_left]. unfold step at 2.
    destruct (String.eqb x ".."); [apply IH, H|].
    destruct (lookup_node f (cur ++ [x])) as [[c m|]|]; try discriminate.
    apply IH, H.
Qed.

Lemma dirwalk_app f : forall a b cur,
  dirwalk f cur (a ++ b)
  = match dirwalk f cur a with
    | inl e => inl e
    | inr k => dirwalk f k b
    end.
Proof.
  induction a as [|x a IH]; intros b cur; [reflexivity|].
  cbn [app dirwalk]. destruct (String.eqb x ".."); [apply IH|].
  destruct (lookup_node f (cur ++ [x])) as [[c m|]|]; try reflexivity.
  apply IH.
Qed.

Lemma dirwalk_keeps f f' : keeps_dirs f f' ->
  forall comps cur k,
    dirwalk f cur comps = inr k -> dirwalk f' cur comps = inr k.
Proof.
  intros Hd. induction comps as [|x comps IH]; intros cur k H; [exact H|].
  cbn [dirwalk] in *. destruct (String.eqb x ".."); [apply IH, H|].
  destruct (lookup_node f (cur ++ [x])) as [[c m|]|] eqn:E; try discriminate.
  rewrite (Hd _ E). apply IH, H.
Qed.

Lemma last_snoc_parts_gen {A} (comps : list A) x :
  last comps = Some x -> comps = removelast comps ++ [x].
Proof.
  intros H. apply last_Some in H as [l ->].
  rewrite removelast_last. reflexivity.
Qed.

Lemma last_snoc_parts (comps : list string) x :
  last comps = Some x -> comps = removelast comps ++ [x].
Proof. apply last_snoc_parts_gen. Qed.

Lemma namei_snoc f cur init x :
  namei f cur (init ++ [x])
  = match dirwalk f cur init with
    | inl e => inl e
    | inr k => inr (step k x)
    end.
Proof. unfold namei. rewrite last_snoc, removelast_last. reflexivity. Qed.

Lemma namei_nil f cur : namei f cur [] = inr cur.
Proof. reflexivity. Qed.

Lemma namei_key f cur comps k :
  namei f cur comps = inr k -> k = fold_left step comps cur.
Proof.
  destruct (last comps) as [x|] eqn:E.
  - rewrite (last_snoc_parts _ _ E), namei_snoc, fold_left_app.
    destruct (dirwalk f cur (removelast comps)) as [e|k0] eqn:Ew;
      [discriminate|].
    intros [= <-]. rewrite (dirwalk_key _ _ _ _ Ew). reflexivity.
  - apply last_None in E. subst comps. intros [= <-]. reflexivity.
Qed.

Lemma namei_keeps f f' cur comps k :
  keeps_dirs f f' -> namei f cur comps = inr k -> namei f' cur comps = inr k.
Proof.
  intros Hd. unfold namei. destruct (last comps) as [x|]; [|trivial].
  destruct (dirwalk f cur (removelast comps)) as [e|k0] eqn:Ew; [discriminate|].
  rewrite (dirwalk_keeps f f' Hd _ _ _ Ew). trivial.
Qed.

(** A path that is found is found at the key of its resolved form. *)
Lemma locate_key w s k : locate w s = inr k -> k = key_of w s.
Proof. unfold locate, key_of. intros H. apply namei_key in H. exact H. Qed.

Lemma locate_keeps w w' s k :
  cwd w' = cwd w -> keeps_dirs (fs w) (fs w') ->
  locate w s = inr k -> locate w' s = inr k.
Proof.
  unfold locate, start_of. intros -> Hd. apply namei_keeps, Hd.
Qed.

Lemma locate_same w w' s :
  cwd w' = cwd w -> fs w' = fs w -> locate w' s = locate w s.
Proof. unfold locate, start_of. intros -> ->. reflexivity. Qed.

Lemma stat_same w w' s :
  cwd w' = cwd w -> fs w' = fs w -> stat w' s = stat w s.
Proof.
  intros Hc Hf. unfold stat. rewrite (locate_same w w' s Hc Hf), Hf.
  reflexivity.
Qed.

Lemma stat_located w s n :
  stat w s = inr n ->
  locate w s = inr (key_of w s) /\ lookup_node (fs w) (key_of w s) = Some n.
Proof.
  unfold stat. destruct (locate w s) as [e|k] eqn:E; [discriminate|].
  pose proof (locate_key _ _ _ E) as ->.
  destruct (lookup_node (fs w) (key_of w s)) as [n'|]; [|discriminate].
  intros [= ->]. auto.
Qed.

Lemma located_stat w s n :
  locate w s = inr (key_of w s) ->
  lookup_node (fs w) (key_of w s) = Some n ->
  stat w s = inr n.
Proof. unfold stat. intros -> ->. reflexivity. Qed.

Lemma stat_grows w w' s n :
  cwd w' = cwd w -> grows (fs w) (fs w') ->
  stat w s = inr n -> stat w' s = inr n.
Proof.
  intros Hc Hg H. apply stat_located in H as [Hl Hn].
  assert (Hk : key_of w' s = key_of w s) by (unfold key_of; rewrite Hc; reflexivity).
  apply located_stat; rewrite Hk.
  - apply (locate_keeps w w' s _ Hc (grows_keeps_dirs _ _ Hg) Hl).
  - apply (lookup_node_keeps _ _ Hg), Hn.
Qed.

(** *** What each operation has done when it returns *)

Lemma set_fs_same w : set_fs w (fs w) = w.
Proof. destruct w. reflexivity. Qed.

Lemma key_of_cwd w w' s : cwd w' = cwd w -> key_of w' s = key_of w s.
Proof. unfold key_of. intros ->. reflexivity. Qed.

Lemma os_exists_ok s w b w' :
  os_exists s w = (Ok b, w') ->
  w' = w /\ b = match stat w s with
                | inr _ => true
                | inl _ => false
                end.
Proof. unfold os_exists. intros [= <- <-]. auto. Qed.

Lemma unlink_ok s w u w' :
  unlink s w = (Ok u, w') ->
  exists c m, locate w s = inr (key_of w s)
              /\ lookup_node (fs w) (key_of w s) = Some (File c m)
              /\ w' = set_fs w (delete (key_of w s) (fs w)).
Proof.
  unfold unlink. destruct (locate w s) as [e|k] eqn:E; [discriminate|].
  pose proof (locate_key _ _ _ E) as ->.
  destruct (lookup_node (fs w) (key_of w s)) as [[c m|]|]; try discriminate.
  intros H. inversion H. subst. exists c, m. auto.
Qed.

Lemma touch_ok s w u w' :
  touch s w = (Ok u, w') ->
  locate w s = inr (key_of w s)
  /\ w' = match lookup_node (fs w) (key_of w s) with
          | Some _ => w
          | None =>
              set_fs w (<[key_of w s := File "" (new_file_mode w)]> (fs w))
          end.
Proof.
  unfold touch. destruct (locate w s) as [e|k] eqn:E; [discriminate|].
  pose proof (locate_key _ _ _ E) as ->.
  destruct (lookup_node (fs w) (key_of w s)) as [n|];
    intros H; inversion H; auto.
Qed.

Lemma print_ok msg w u w' :
  print msg w = (Ok u, w') ->
  w' = mk_world (fs w) (cwd w) (umask w) (stdout w ++ [msg]).
Proof. unfold print. intros H. inversion H. reflexivity. Qed.

Lemma resolve_ok s w r w' :
  resolve s w = (Ok r, w') ->
  w' = w /\ r = to_str (mk_path "/" (key_of w s)).
Proof. unfold resolve. intros [= <- <-]. auto. Qed.

Lemma bind_run {A B} (c : M A) (f : A -> M B) w a w1 :
  c w = (Ok a, w1) -> bind c f w = f a w1.
Proof. unfold bind. intros ->. reflexivity. Qed.

(** *** Making directories *)

(** What a successful [mkdir] of the path string [s] has made of the file
    system of [w]: every entry that was there is still there, every new
    entry is a directory, and [s] names a directory. *)
Definition made (w : world) (f1 : gmap (list string) node) (s : string)
  : Prop :=
  grows (fs w) f1
  /\ (forall k n, f1 !! k = Some n -> fs w !! k = Some n \/ n = Dir)
  /\ stat (set_fs w f1) s = inr Dir.

Lemma os_mkdir_ok s w u w' :
  os_mkdir s w = (Ok u, w') ->
  locate w s = inr (key_of w s)
  /\ lookup_node (fs w) (key_of w s) = None
  /\ w' = set_fs w (<[key_of w s := Dir]> (fs w)).
Proof.
  unfold os_mkdir. destruct (locate w s) as [e|k] eqn:E; [discriminate|].
  pose proof (locate_key _ _ _ E) as ->.
  destruct (lookup_node (fs w) (key_of w s)) as [n|] eqn:El; [discriminate|].
  intros H. inversion H. auto.
Qed.

Lemma os_mkdir_raise s w e w' : os_mkdir s w = (Raise e, w') -> w' = w.
Proof.
  unfold os_mkdir. destruct (locate w s) as [e'|k].
  - intros [= _ <-]. reflexivity.
  - destruct (lookup_node (fs w) k); intros H; inversion H. reflexivity.
Qed.

Lemma unless_is_dir_ok s e w u w' :
  unless_is_dir s e w = (Ok u, w') -> w' = w /\ stat w s = inr Dir.
Proof.
  unfold unless_is_dir, bind, is_dir, ret, raise.
  destruct (stat w s) as [e'|[c m|]]; try discriminate.
  intros [= <-]. auto.
Qed.

Lemma os_mkdir_made s w u w' :
  os_mkdir s w = (Ok u, w') ->
  exists f1, w' = set_fs w f1 /\ made w f1 s.
Proof.
  intros H. apply os_mkdir_ok in H as (Hl & Hn & ->).
  eexists. split; [reflexivity|].
  pose proof (insert_absent_grows (fs w) (key_of w s) Dir Hn) as Hg.
  split; [exact Hg|]. split.
  - intros k n Hk. destruct (decide (k = key_of w s)) as [->|Hne].
    + rewrite lookup_insert_eq in Hk. injection Hk as <-. auto.
    + rewrite lookup_insert_ne in Hk by congruence. auto.
  - apply located_stat.
    + apply (locate_keeps w); [reflexivity| |exact Hl].
      apply grows_keeps_dirs, Hg.
    + apply (lookup_node_insert_eq (fs w)), (lookup_node_absent (fs w)), Hn.
Qed.

Lemma unless_is_dir_made s e w u w' :
  unless_is_dir s e w = (Ok u, w') ->
  exists f1, w' = set_fs w f1 /\ made w f1 s.
Proof.
  intros H. apply unless_is_dir_ok in H as [-> Hd].
  exists (fs w). rewrite set_fs_same. split; [reflexivity|].
  split; [apply grows_refl|]. split; [auto|exact Hd].
Qed.

Lemma mkdir_here_ok p w u w' :
  mkdir_here p w = (Ok u, w') ->
  exists f1, w' = set_fs w f1 /\ made w f1 (to_str p).
Proof.
  unfold mkdir_here.
  destruct (os_mkdir (to_str p) w) as [[[]|e] w1] eqn:E.
  - intros [= <- <-]. apply (os_mkdir_made _ _ _ _ E).
  - apply os_mkdir_raise in E. subst w1.
    destruct e; try discriminate; apply unless_is_dir_made.
Qed.

Lemma made_trans w f1 f2 s1 s2 :
  made w f1 s1 -> made (set_fs w f1) f2 s2 -> made w f2 s2.
Proof.
  intros (Hg1 & Hn1 & _) (Hg2 & Hn2 & Hs2). cbn [fs set_fs] in *.
  split; [eapply grows_trans; eauto|]. split; [|exact Hs2].
  intros k n Hk. destruct (Hn2 k n Hk) as [H|H]; [|auto].
  apply Hn1, H.
Qed.

Lemma mkdir_rec_ok r : forall rparts w u w',
  mkdir_rec r rparts w = (Ok u, w') ->
  exists f1, w' = set_fs w f1 /\ made w f1 (to_str (mk_path r (rev rparts))).
Proof.
  induction rparts as [|x rparent IH]; intros w u w' H; cbn [mkdir_rec] in H.
  - destruct (os_mkdir (to_str (mk_path r (rev []))) w) as [[[]|e] w1] eqn:E.
    + injection H as <- <-. apply (os_mkdir_made _ _ _ _ E).
    + apply os_mkdir_raise in E. subst w1.
      destruct e; try discriminate; revert H; apply unless_is_dir_made.
  - destruct (os_mkdir (to_str (mk_path r (rev (x :: rparent)))) w)
      as [[[]|e] w1] eqn:E.
    + injection H as <- <-. apply (os_mkdir_made _ _ _ _ E).
    + apply os_mkdir_raise in E. subst w1.
      destruct e; try (revert H; apply unless_is_dir_made).
      apply bind_ok in H as ([] & w2 & Hrec & Hhere).
      apply IH in Hrec as (f2 & -> & Hmade2).
      apply mkdir_here_ok in Hhere as (f3 & -> & Hmade3).
      exists f3. split; [reflexivity|]. eapply made_trans; eauto.
Qed.

(** A successful [mkdir] has kept every entry, added directories only, and
    its path names a directory. *)
Lemma mkdir_parents_ok p w u w' :
  mkdir_parents p w = (Ok u, w') ->
  exists f1, w' = set_fs w f1 /\ made w f1 (to_str p).
Proof.
  unfold mkdir_parents. intros H. apply mkdir_rec_ok in H as (f1 & -> & Hm).
  rewrite rev_involutive in Hm. exists f1. destruct p. auto.
Qed.

(** The [mkdir] of a directory that is there changes nothing. *)
Lemma mkdir_rec_there r rparts w :
  stat w (to_str (mk_path r (rev rparts))) = inr Dir ->
  mkdir_rec r rparts w = (Ok tt, w).
Proof.
  intros Hs.
  assert (H : os_mkdir (to_str (mk_path r (rev rparts))) w
              = (Raise (FileExistsError (to_str (mk_path r (rev rparts)))), w)).
  { unfold os_mkdir. apply stat_located in Hs as [-> ->]. reflexivity. }
  assert (Hu : unless_is_dir (to_str (mk_path r (rev rparts)))
                 (FileExistsError (to_str (mk_path r (rev rparts)))) w
               = (Ok tt, w)).
  { unfold unless_is_dir, bind, is_dir. rewrite Hs. reflexivity. }
  destruct rparts as [|x rparent]; cbn [mkdir_rec]; rewrite H; exact Hu.
Qed.

Lemma mkdir_parents_there p w :
  stat w (to_str p) = inr Dir -> mkdir_parents p w = (Ok tt, w).
Proof.
  intros H. unfold mkdir_parents. apply mkdir_rec_there.
  rewrite rev_involutive. destruct p. exact H.
Qed.

(** *** An entry in a directory that is there *)

Lemma dirwalk_snoc f cur init x :
  dirwalk f cur (init ++ [x])
  = match dirwalk f cur init with
    | inl e => inl e
    | inr k =>
        if String.eqb x ".." then inr (removelast k)
        else match lookup_node f (k ++ [x]) with
             | Some Dir => inr (k ++ [x])
             | Some (File _ _) => inl ENOTDIR
             | None => inl ENOENT
             end
    end.
Proof.
  rewrite dirwalk_app. destruct (dirwalk f cur init) as [e|k]; [reflexivity|].
  cbn [dirwalk]. destruct (String.eqb x ".."); [reflexivity|].
  destruct (lookup_node f (k ++ [x])) as [[c m|]|]; reflexivity.
Qed.

(** The lookup of a directory that is there is a walk through it. *)
Lemma namei_dir_dirwalk f cur comps k :
  namei f cur comps = inr k -> lookup_node f k = Some Dir ->
  dirwalk f cur comps = inr k.
Proof.
  destruct (last comps) as [x|] eqn:E.
  - rewrite (last_snoc_parts _ _ E), namei_snoc, dirwalk_snoc.
    destruct (dirwalk f cur (removelast comps)) as [e|k0]; [discriminate|].
    unfold step. intros [= <-].
    destruct (String.eqb x ".."); [reflexivity|]. intros ->. reflexivity.
  - apply last_None in E. subst comps. intros [= <-] _. reflexivity.
Qed.

Lemma parts_parent (p : path) x :
  last (parts p) = Some x -> parts p = parts (parent p) ++ [x].
Proof. apply last_snoc_parts. Qed.

(** When the parent of a path is a directory, the path is found, at the
    key of its resolved form. *)
Lemma locate_child w p :
  wf_path p ->
  stat w (to_str (parent p)) = inr Dir ->
  locate w (to_str p) = inr (key_of w (to_str p)).
Proof.
  intros Hp Hs. apply stat_located in Hs as [Hl Hd].
  assert (H : exists k, locate w (to_str p) = inr k).
  { unfold locate in *.
    rewrite (parse_path_to_str _ (wf_parent _ Hp)) in Hl.
    rewrite (parse_path_to_str _ Hp).
    change (start_of w (parent p)) with (start_of w p) in Hl.
    destruct (last (parts p)) as [x|] eqn:E.
    - rewrite (parts_parent _ _ E), namei_snoc.
      rewrite (namei_dir_dirwalk _ _ _ _ Hl Hd). eauto.
    - apply last_None in E. rewrite E. eauto. }
  destruct H as [k H]. rewrite H. f_equal. apply (locate_key _ _ _ H).
Qed.

(** *** The operations on a path that is found *)

Lemma os_exists_at s w k :
  locate w s = inr k ->
  os_exists s w = (Ok (match lookup_node (fs w) k with
                       | Some _ => true
                       | None => false
                       end), w).
Proof.
  intros H. unfold os_exists, stat. rewrite H.
  destruct (lookup_node (fs w) k); reflexivity.
Qed.

Lemma unlink_at s w k :
  locate w s = inr k ->
  unlink s w = match lookup_node (fs w) k with
               | Some (File _ _) => (Ok tt, set_fs w (delete k (fs w)))
               | Some Dir => (Raise (IsADirectoryError s), w)
               | None => (Raise (FileNotFoundError s), w)
               end.
Proof. intros H. unfold unlink. rewrite H. reflexivity. Qed.

Lemma touch_at s w k :
  locate w s = inr k ->
  touch s w = (Ok tt, match lookup_node (fs w) k with
                      | Some _ => w
                      | None => set_fs w (<[k := File "" (new_file_mode w)]> (fs w))
                      end).
Proof.
  intros H. unfold touch. rewrite H.
  destruct (lookup_node (fs w) k); reflexivity.
Qed.

(** *** One turn of the loop of [get_log_paths] *)

(** The watched log of task index [idx], the key of its resolved form, the
    key of the resolved form of its directory, and the path the loop
    reports for it. *)
Definition watched (lp : string) (idx : Z) : path :=
  parse_path (replace lp "%4a" (format_04d (idx + 1))).

Definition log_key (w : world) (lp : string) (idx : Z) : list string :=
  key_of w (to_str (watched lp idx)).

Definition dir_key (w : world) (lp : string) (idx : Z) : list string :=
  key_of w (to_str (parent (watched lp idx))).

Definition resolved (w : world) (lp : string) (idx : Z) : string :=
  to_str (mk_path "/" (log_key w lp idx)).

(** The file system after the refresh and the touch at key [k]. *)
Definition refreshed (refresh : bool) (k : list string)
    (f : gmap (list string) node) : gmap (list string) node :=
  if refresh then
    match lookup_node f k with
    | Some (File _ _) => delete k f
    | _ => f
    end
  else f.

Definition touched (mode : N) (k : list string)
    (f : gmap (list string) node) : gmap (list string) node :=
  match lookup_node f k with
  | Some _ => f
  | None => <[k := File "" mode]> f
  end.

(** The world after a turn of the loop that starts in [w] and has made the
    directories with result [f1]. *)
Definition watched_world (self : Yaspi) (lp : string) (idx : Z) (w : world)
    (f1 : gmap (list string) node) : world :=
  let k := log_key w lp idx in
  let f2 := refreshed (refresh_logs self) k f1 in
  mk_world (touched (new_file_mode w) k f2) (cwd w) (umask w)
    (match lookup_node f2 k with
     | Some _ => stdout w
     | None => stdout w ++ ["Creating watch log: " +:+ to_str (watched lp idx)
                            +:+ " for the first time"]
     end).

(** The refresh is stopped by a directory. *)
Definition refresh_stopped (self : Yaspi) (f1 : gmap (list string) node)
    (k : list string) : bool :=
  refresh_logs self && match lookup_node f1 k with
                       | Some Dir => true
                       | _ => false
                       end.

Lemma refreshed_keeps_dirs refresh k f : keeps_dirs f (refreshed refresh k f).
Proof.
  intros k' H. unfold refreshed. destruct refresh; [|exact H].
  destruct (lookup_node f k) as [[c m|]|] eqn:E; try exact H.
  rewrite lookup_node_delete_ne; [exact H|]. congruence.
Qed.

Lemma bind_raise {A B} (c : M A) (f : A -> M B) w e w1 :
  c w = (Raise e, w1) -> bind c f w = (Raise e, w1).
Proof. unfold bind. intros ->. reflexivity. Qed.

(** The refresh of a log that is found. *)
Lemma refresh_block s k w :
  locate w s = inr k ->
  bind (os_exists s) (fun present => if present : bool then unlink s else ret tt) w
  = match lookup_node (fs w) k with
    | Some (File _ _) => (Ok tt, set_fs w (delete k (fs w)))
    | Some Dir => (Raise (IsADirectoryError s), w)
    | None => (Ok tt, w)
    end.
Proof.
  intros H. rewrite (bind_run _ _ w _ w (os_exists_at s w k H)).
  destruct (lookup_node (fs w) k) as [n|] eqn:E; [|reflexivity].
  rewrite (unlink_at s w k H), E. reflexivity.
Qed.

(** The rest of a turn for a log that is found. *)
Lemma finish_turn s k w acc msg :
  locate w s = inr k ->
  bind (os_exists s) (fun present =>
    bind (if negb present then bind (print msg) (fun _ => touch s) else ret tt)
         (fun _ => bind (resolve s) (fun resolved => ret (acc ++ [resolved])))) w
  = (Ok (acc ++ [to_str (mk_path "/" k)]),
     match lookup_node (fs w) k with
     | Some _ => w
     | None => mk_world (<[k := File "" (new_file_mode w)]> (fs w))
                 (cwd w) (umask w) (stdout w ++ [msg])
     end).
Proof.
  intros Hl. pose proof (locate_key _ _ _ Hl) as Hk.
  rewrite (bind_run _ _ w _ w (os_exists_at s w k Hl)).
  destruct (lookup_node (fs w) k) as [n|] eqn:E; cbn [negb].
  - rewrite (bind_run (ret tt) _ w tt w eq_refl).
    unfold bind, resolve, ret. rewrite Hk. reflexivity.
  - set (wp := mk_world (fs w) (cwd w) (umask w) (stdout w ++ [msg])).
    assert (Hlp : locate wp s = inr k).
    { rewrite (locate_same w wp s eq_refl eq_refl). exact Hl. }
    rewrite (bind_run _ _ w tt
               (mk_world (<[k := File "" (new_file_mode w)]> (fs w))
                  (cwd w) (umask w) (stdout w ++ [msg]))).
    2:{ rewrite (bind_run (print msg) _ w tt wp eq_refl).
        rewrite (touch_at s wp k Hlp). unfold wp. cbn [fs]. rewrite E.
        reflexivity. }
    unfold bind, resolve, ret. rewrite Hk. reflexivity.
Qed.

(** A turn of the loop once its directory is made: a directory at the log
    stops the refresh; otherwise the turn returns. *)
Lemma watch_log_run self lp acc idx w f1 :
  log_path self = Some lp ->
  mkdir_parents (parent (watched lp idx)) w = (Ok tt, set_fs w f1) ->
  locate (set_fs w f1) (to_str (watched lp idx)) = inr (log_key w lp idx) ->
  watch_log self acc idx w
  = if refresh_stopped self f1 (log_key w lp idx) then
      (Raise (IsADirectoryError (to_str (watched lp idx))), set_fs w f1)
    else
      (Ok (acc ++ [resolved w lp idx]), watched_world self lp idx w f1).
Proof.
  intros Hlp Hmk Hloc. unfold watch_log. rewrite Hlp.
  fold (watched lp idx).
  rewrite (bind_run (lift (Ok lp)) _ w lp w) by reflexivity.
  fold (watched lp idx).
  rewrite (bind_run (mkdir_parents _) _ w tt (set_fs w f1) Hmk).
  unfold watched_world, resolved, refresh_stopped.
  set (k := log_key w lp idx) in *.
  set (s := to_str (watched lp idx)) in *.
  set (msg := "Creating watch log: " +:+ s +:+ " for the first time").
  set (f2 := refreshed (refresh_logs self) k f1).
  assert (Hl2 : locate (set_fs w f2) s = inr k).
  { apply (locate_keeps (set_fs w f1)); [reflexivity| |exact Hloc].
    apply refreshed_keeps_dirs. }
  pose proof (finish_turn s k (set_fs w f2) acc msg Hl2) as Hfin.
  unfold set_fs in Hfin. cbn [fs cwd umask stdout] in Hfin.
  destruct (refresh_logs self) eqn:Eb; cbn [andb].
  - pose proof (refresh_block s k (set_fs w f1) Hloc) as Hb.
    change (fs (set_fs w f1)) with f1 in Hb.
    unfold f2, refreshed in *.
    destruct (lookup_node f1 k) as [[c m|]|] eqn:E.
    + rewrite (bind_run _ _ (set_fs w f1) tt _ Hb).
      unfold set_fs. cbn [fs cwd umask stdout]. rewrite Hfin.
      unfold touched, new_file_mode. cbn [umask].
      destruct (lookup_node (delete k f1) k); reflexivity.
    + apply bind_raise. exact Hb.
    + rewrite (bind_run _ _ (set_fs w f1) tt _ Hb).
      unfold set_fs. cbn [fs cwd umask stdout]. rewrite Hfin.
      unfold touched, new_file_mode. cbn [umask]. rewrite E. reflexivity.
  - rewrite (bind_run (ret tt) _ (set_fs w f1) tt (set_fs w f1) eq_refl).
    unfold f2, refreshed in *. unfold set_fs. cbn [fs cwd umask stdout].
    rewrite Hfin. unfold touched, new_file_mode. cbn [umask].
    destruct (lookup_node f1 k); reflexivity.
Qed.

(** A turn that returns has made the directory of its log, found the log,
    and refreshed and touched it. *)
Lemma watch_log_ok self lp acc idx w r w' :
  log_path self = Some lp ->
  watch_log self acc idx w = (Ok r, w') ->
  exists f1,
    mkdir_parents (parent (watched lp idx)) w = (Ok tt, set_fs w f1)
    /\ made w f1 (to_str (parent (watched lp idx)))
    /\ locate (set_fs w f1) (to_str (watched lp idx)) = inr (log_key w lp idx)
    /\ refresh_stopped self f1 (log_key w lp idx) = false
    /\ r = acc ++ [resolved w lp idx]
    /\ w' = watched_world self lp idx w f1.
Proof.
  intros Hlp H. pose proof H as H0. unfold watch_log in H. rewrite Hlp in H.
  fold (watched lp idx) in H.
  apply bind_ok in H as (lp' & w0 & Hl & H).
  apply lift_ok in Hl as [[= <-] ->].
  fold (watched lp idx) in H.
  apply bind_ok in H as ([] & w1 & Hmk & _).
  destruct (mkdir_parents_ok _ _ _ _ Hmk) as (f1 & -> & Hmade).
  assert (Hloc : locate (set_fs w f1) (to_str (watched lp idx))
                 = inr (log_key w lp idx)).
  { apply (locate_child (set_fs w f1) (watched lp idx)); [apply wf_parse_path|].
    apply Hmade. }
  rewrite (watch_log_run self lp acc idx w f1 Hlp Hmk Hloc) in H0.
  exists f1. destruct (refresh_stopped self f1 (log_key w lp idx));
    [discriminate|].
  injection H0 as <- <-. auto 7.
Qed.

Lemma refresh_stopped_off self f1 k :
  refresh_logs self = false -> refresh_stopped self f1 k = false.
Proof. unfold refresh_stopped. intros ->. reflexivity. Qed.

Lemma refresh_stopped_on self f1 k :
  refresh_logs self = true -> refresh_stopped self f1 k = false ->
  lookup_node f1 k <> Some Dir.
Proof.
  unfold refresh_stopped. intros ->. cbn [andb].
  destruct (lookup_node f1 k) as [[c m|]|]; congruence.
Qed.

(** After the refresh and the touch the key holds an entry; it is a new
    empty file when the refresh is on or nothing was there. *)
Lemma touched_refreshed_on mode k f :
  lookup_node f k <> Some Dir ->
  lookup_node (touched mode k (refreshed true k f)) k = Some (File "" mode).
Proof.
  intros Hnodir. unfold touched, refreshed.
  destruct (lookup_node f k) as [[c m|]|] eqn:E.
  - pose proof (lookup_node_file _ _ _ _ E) as Hk.
    rewrite (lookup_node_delete_eq f k Hk).
    apply lookup_node_insert_eq, Hk.
  - congruence.
  - rewrite E. apply lookup_node_insert_eq, (lookup_node_absent f), E.
Qed.

Lemma touched_absent mode k f :
  lookup_node f k = None ->
  lookup_node (touched mode k f) k = Some (File "" mode).
Proof.
  intros E. unfold touched. rewrite E.
  apply lookup_node_insert_eq, (lookup_node_absent f), E.
Qed.

Lemma touched_other mode k f k' :
  k <> k' -> lookup_node (touched mode k f) k' = lookup_node f k'.
Proof.
  intros Hne. unfold touched. destruct (lookup_node f k); [reflexivity|].
  apply lookup_node_insert_ne, Hne.
Qed.

Lemma refreshed_other refresh k f k' :
  k <> k' -> lookup_node (refreshed refresh k f) k' = lookup_node f k'.
Proof.
  intros Hne. unfold refreshed. destruct refresh; [|reflexivity].
  destruct (lookup_node f k) as [[c m|]|]; try reflexivity.
  apply lookup_node_delete_ne, Hne.
Qed.

Lemma touched_grows mode k f : grows f (touched mode k f).
Proof.
  unfold touched. destruct (lookup_node f k) as [n'|] eqn:E;
    [apply grows_refl|apply insert_absent_grows, E].
Qed.

Lemma touched_keeps mode k f k' n :
  lookup_node f k' = Some n -> lookup_node (touched mode k f) k' = Some n.
Proof. apply lookup_node_keeps, touched_grows. Qed.

(** The log of a turn is there afterwards. *)
Lemma touched_there mode k f :
  exists n, lookup_node (touched mode k f) k = Some n.
Proof.
  destruct (lookup_node f k) as [n|] eqn:E.
  - exists n. unfold touched. rewrite E. exact E.
  - exists (File "" mode). apply touched_absent, E.
Qed.

End FsFacts.

(* ===================================================================== *)
(** ** Facts about the loop of [get_log_paths] *)
(* ===================================================================== *)

Module LoopFacts.
Import PyStr PurePath World Yaspi StrFacts WorldFacts PathFacts FsFacts.

Lemma log_key_cwd w w' lp idx :
  cwd w' = cwd w -> log_key w' lp idx = log_key w lp idx.
Proof. intros H. unfold log_key. apply key_of_cwd, H. Qed.

Lemma dir_key_cwd w w' lp idx :
  cwd w' = cwd w -> dir_key w' lp idx = dir_key w lp idx.
Proof. intros H. unfold dir_key. apply key_of_cwd, H. Qed.

Lemma resolved_cwd w w' lp idx :
  cwd w' = cwd w -> resolved w' lp idx = resolved w lp idx.
Proof.
  intros H. unfold resolved. rewrite (log_key_cwd w w' lp idx H). reflexivity.
Qed.

Lemma new_file_mode_umask w w' :
  umask w' = umask w -> new_file_mode w' = new_file_mode w.
Proof. unfold new_file_mode. intros ->. reflexivity. Qed.

(** The directory of the log of index [idx] and the log are there. *)
Definition settled (f : gmap (list string) node) (w : world) (lp : string)
    (idx : Z) : Prop :=
  stat (set_fs w f) (to_str (parent (watched lp idx))) = inr Dir
  /\ exists n, lookup_node f (log_key w lp idx) = Some n.

Lemma settled_grows f f' w lp idx :
  grows f f' -> settled f w lp idx -> settled f' w lp idx.
Proof.
  intros Hg [Hd [n Hn]]. split.
  - apply (stat_grows (set_fs w f)); [reflexivity|exact Hg|exact Hd].
  - exists n. eapply lookup_node_keeps; [exact Hg|exact Hn].
Qed.

Lemma settled_cwd f w w' lp idx :
  cwd w' = cwd w -> settled f w lp idx -> settled f w' lp idx.
Proof.
  intros Hc [Hd Hn]. split.
  - rewrite (stat_same (set_fs w f) (set_fs w' f)); [exact Hd|exact Hc|reflexivity].
  - rewrite (log_key_cwd w w' lp idx Hc). exact Hn.
Qed.

(** One turn with [refresh_logs] off. *)
Lemma watch_log_off self lp acc idx w r w' :
  log_path self = Some lp ->
  refresh_logs self = false ->
  watch_log self acc idx w = (Ok r, w') ->
  r = acc ++ [resolved w lp idx]
  /\ cwd w' = cwd w
  /\ grows (fs w) (fs w')
  /\ settled (fs w') w lp idx.
Proof.
  intros Hlp Hoff H.
  destruct (watch_log_ok self lp acc idx w r w' Hlp H)
    as (f1 & _ & (Hg1 & _ & Hdir) & _ & _ & -> & ->).
  unfold watched_world. cbn [fs cwd]. rewrite Hoff. unfold refreshed.
  split; [reflexivity|]. split; [reflexivity|].
  split; [eapply grows_trans; [exact Hg1|apply touched_grows]|].
  split; [|apply touched_there].
  apply (stat_grows (set_fs w f1)); [reflexivity|apply touched_grows|exact Hdir].
Qed.

(** With [refresh_logs] off, a turn for a log that is there, in a
    directory that is there, changes nothing. *)
Lemma watch_log_settled self lp acc idx w :
  log_path self = Some lp ->
  refresh_logs self = false ->
  settled (fs w) w lp idx ->
  watch_log self acc idx w = (Ok (acc ++ [resolved w lp idx]), w).
Proof.
  intros Hlp Hoff [Hd [n Hn]]. rewrite set_fs_same in Hd.
  assert (Hmk : mkdir_parents (parent (watched lp idx)) w
                = (Ok tt, set_fs w (fs w))).
  { rewrite set_fs_same. apply mkdir_parents_there, Hd. }
  rewrite (watch_log_run self lp acc idx w (fs w) Hlp Hmk).
  - rewrite (refresh_stopped_off _ _ _ Hoff). f_equal.
    unfold watched_world, refreshed, touched. rewrite Hoff, Hn.
    destruct w. reflexivity.
  - rewrite set_fs_same.
    apply (locate_child w (watched lp idx)); [apply wf_parse_path|exact Hd].
Qed.

(** The loop returns the resolved paths of its indices, in their order. *)
Lemma loop_paths self lp : forall l acc w r w',
  log_path self = Some lp ->
  for_fold (watch_log self) l acc w = (Ok r, w') ->
  r = acc ++ map (resolved w lp) l /\ cwd w' = cwd w /\ umask w' = umask w.
Proof.
  induction l as [|idx l IH]; intros acc w r w' Hlp H.
  - apply ret_ok in H as [-> ->]. rewrite List.app_nil_r. auto.
  - apply for_fold_cons_ok in H as (acc1 & w1 & H1 & H2).
    destruct (watch_log_ok self lp acc idx w acc1 w1 Hlp H1)
      as (f1 & _ & _ & _ & _ & Hr & Hw1).
    assert (Hcwd : cwd w1 = cwd w) by (rewrite Hw1; reflexivity).
    assert (Hum : umask w1 = umask w) by (rewrite Hw1; reflexivity).
    destruct (IH acc1 w1 r w' Hlp H2) as (-> & Hcwd' & Hum').
    subst acc1. rewrite <- List.app_assoc. cbn [map app].
    repeat split; try congruence.
    do 2 f_equal. apply map_ext. intros i. apply resolved_cwd, Hcwd.
Qed.

Lemma loop_off self lp : forall l acc w r w',
  log_path self = Some lp ->
  refresh_logs self = false ->
  for_fold (watch_log self) l acc w = (Ok r, w') ->
  grows (fs w) (fs w') /\ Forall (settled (fs w') w lp) l.
Proof.
  induction l as [|idx l IH]; intros acc w r w' Hlp Hoff H.
  - apply ret_ok in H as [-> ->]. split; [apply grows_refl|constructor].
  - apply for_fold_cons_ok in H as (acc1 & w1 & H1 & H2).
    destruct (watch_log_off self lp acc idx w acc1 w1 Hlp Hoff H1)
      as (_ & Hcwd & Hg & Hs).
    destruct (IH acc1 w1 r w' Hlp Hoff H2) as (Hg' & Hall).
    split; [eapply grows_trans; eauto|].
    constructor.
    + apply (settled_grows (fs w1)); [exact Hg'|exact Hs].
    + eapply Forall_impl; [exact Hall|].
      intros i Hi. apply (settled_cwd _ w1 w); [symmetry; exact Hcwd|exact Hi].
Qed.

(** With [refresh_logs] off, the loop over settled logs changes nothing. *)
Lemma loop_settled self lp : forall l acc w,
  log_path self = Some lp ->
  refresh_logs self = false ->
  Forall (settled (fs w) w lp) l ->
  for_fold (watch_log self) l acc w = (Ok (acc ++ map (resolved w lp) l), w).
Proof.
  induction l as [|idx l IH]; intros acc w Hlp Hoff Hall.
  - cbn. rewrite List.app_nil_r. reflexivity.
  - inversion Hall as [|? ? Hs Hall']; subst.
    cbn [for_fold].
    rewrite (bind_run _ _ w (acc ++ [resolved w lp idx]) w).
    2:{ apply watch_log_settled; assumption. }
    rewrite (IH _ w Hlp Hoff Hall'). rewrite <- List.app_assoc. reflexivity.
Qed.

(** The entry at [k] is an empty regular file with the mode of a file
    newly made in [w]. *)
Definition fresh_log (w : world) (f : gmap (list string) node)
    (k : list string) : Prop :=
  lookup_node f k = Some (File "" (new_file_mode w)).

(** One turn with [refresh_logs] on: its log is a new empty file, and the
    new empty files there were are still there. *)
Lemma watch_log_on self lp acc idx w r w' :
  log_path self = Some lp ->
  refresh_logs self = true ->
  watch_log self acc idx w = (Ok r, w') ->
  fresh_log w (fs w') (log_key w lp idx)
  /\ (forall k, fresh_log w (fs w) k -> fresh_log w (fs w') k).
Proof.
  intros Hlp Hon H.
  destruct (watch_log_ok self lp acc idx w r w' Hlp H)
    as (f1 & _ & (Hkeep & _ & _) & _ & Hstop & _ & ->).
  pose proof (refresh_stopped_on _ _ _ Hon Hstop) as Hnodir.
  unfold watched_world, fresh_log. cbn [fs]. rewrite Hon.
  assert (Hk : lookup_node
                 (touched (new_file_mode w) (log_key w lp idx)
                    (refreshed true (log_key w lp idx) f1))
                 (log_key w lp idx) = Some (File "" (new_file_mode w))).
  { apply touched_refreshed_on, Hnodir. }
  split; [exact Hk|].
  intros k Hfresh.
  destruct (decide (log_key w lp idx = k)) as [<-|Hne]; [exact Hk|].
  rewrite (touched_other _ _ _ _ Hne), (refreshed_other _ _ _ _ Hne).
  eapply lookup_node_keeps; [exact Hkeep|exact Hfresh].
Qed.

Lemma loop_on self lp : forall l acc w r w',
  log_path self = Some lp ->
  refresh_logs self = true ->
  for_fold (watch_log self) l acc w = (Ok r, w') ->
  (forall k, fresh_log w (fs w) k -> fresh_log w (fs w') k)
  /\ Forall (fun idx => fresh_log w (fs w') (log_key w lp idx)) l.
Proof.
  induction l as [|idx l IH]; intros acc w r w' Hlp Hon H.
  - apply ret_ok in H as [-> ->]. split; [trivial|constructor].
  - apply for_fold_cons_ok in H as (acc1 & w1 & H1 & H2).
    destruct (watch_log_ok self lp acc idx w acc1 w1 Hlp H1)
      as (f1 & _ & _ & _ & _ & _ & Hw1).
    assert (Hcwd : cwd w1 = cwd w) by (rewrite Hw1; reflexivity).
    assert (Hum : umask w1 = umask w) by (rewrite Hw1; reflexivity).
    destruct (watch_log_on self lp acc idx w acc1 w1 Hlp Hon H1)
      as (Hk & Hkeep).
    destruct (IH acc1 w1 r w' Hlp Hon H2) as (Hkeep' & Hall).
    unfold fresh_log in *.
    rewrite (new_file_mode_umask w w1 Hum) in Hkeep', Hall.
    split; [intros k Hf; apply Hkeep', Hkeep, Hf|].
    constructor; [apply Hkeep', Hk|].
    eapply Forall_impl; [exact Hall|].
    intros i. cbn beta. rewrite (log_key_cwd w w1 lp i Hcwd). trivial.
Qed.

(** [range(n)] *)
Lemma length_range n : length (range n) = Z.to_nat n.
Proof. unfold range. rewrite length_map, length_seq. reflexivity. Qed.

Lemma range_lookup n i :
  (i < Z.to_nat n)%nat -> range n !! i = Some (Z.of_nat i).
Proof.
  intros Hi. unfold range. rewrite list_lookup_fmap.
  rewrite lookup_seq_lt by exact Hi. reflexivity.
Qed.

End LoopFacts.

(* ===================================================================== *)
(** ** The log path of the ray recipe *)
(* ===================================================================== *)

Module LayoutFacts.
Import PyStr PurePath World Yaspi StrFacts WorldFacts FsFacts LoopFacts.
Import PathFacts.

(** The log path [generate_scripts] sets:
    [str(Path(log_dir) / job_name / "%4a-log.txt")]. *)
Definition ray_log_path (d j : string) : string :=
  to_str (joinpath (joinpath (parse_path d) (parse_path j))
                   (parse_path "%4a-log.txt")).

(** [Path(log_dir) / job_name] *)
Definition log_dir_path (d j : string) : path :=
  joinpath (parse_path d) (parse_path j).

(** The name of the log of index [idx]. *)
Definition log_name (idx : Z) : string := format_04d (idx + 1) +:+ "-log.txt".

Lemma select_recipe_log_path self gen_dir self' tps rules :
  select_recipe self gen_dir = Ok (self', tps, rules) ->
  log_path self' = Some (ray_log_path (log_dir self) (job_name self))
  /\ log_dir self' = log_dir self /\ job_name self' = job_name self
  /\ job_array_size self' = job_array_size self
  /\ refresh_logs self' = refresh_logs self.
Proof.
  unfold select_recipe. destruct (String.eqb (recipe self) "ray"); [|discriminate].
  intros [= <- _ _]. repeat split.
Qed.

Lemma repl_free new s : has_char "%" s = false -> repl new s = s.
Proof.
  induction s as [|c s IH]; intros H; [apply repl_nil|].
  cbn [has_char] in H. apply orb_false_iff in H as [Hc Hs].
  rewrite repl_cons. cbn [strip_prefix].
  rewrite Ascii.eqb_sym, Hc, (IH Hs). reflexivity.
Qed.

Lemma wf_log_dir_path d j : wf_path (log_dir_path d j).
Proof. apply wf_joinpath; apply wf_parse_path. Qed.

Lemma ray_log_path_parts d j :
  parse_path (ray_log_path d j)
  = mk_path (root (log_dir_path d j))
            (parts (log_dir_path d j) ++ ["%4a-log.txt"]).
Proof.
  unfold ray_log_path. rewrite parse_path_to_str.
  - reflexivity.
  - apply wf_joinpath; [apply wf_log_dir_path|apply wf_parse_path].
Qed.

(** The path a turn of the loop watches. *)
Lemma watched_ray d j idx :
  watched (ray_log_path d j) idx
  = mk_path (root (log_dir_path d j))
      (map (repl (format_04d (idx + 1))) (parts (log_dir_path d j))
       ++ [log_name idx]).
Proof.
  unfold watched. fold (repl (format_04d (idx + 1)) (ray_log_path d j)).
  rewrite (parse_path_repl _ (format_04d_free _) (format_04d_long _)).
  rewrite ray_log_path_parts. cbn [root parts]. rewrite map_app. cbn [map].
  change "%4a-log.txt" with ("%4a" +:+ "-log.txt").
  rewrite repl_hit, repl_free by reflexivity. reflexivity.
Qed.

Lemma log_name_long idx : 12 <= String.length (log_name idx).
Proof.
  unfold log_name. rewrite length_app.
  pose proof (format_04d_long (idx + 1)). simpl. lia.
Qed.

Lemma log_name_plain idx : String.eqb (log_name idx) ".." = false.
Proof.
  apply String.eqb_neq. intros H.
  pose proof (log_name_long idx) as Hlen. rewrite H in Hlen. simpl in Hlen. lia.
Qed.

Lemma dir_key_ray w d j idx :
  dir_key w (ray_log_path d j) idx
  = resolve_parts (cwd w)
      (mk_path (root (log_dir_path d j))
         (map (repl (format_04d (idx + 1))) (parts (log_dir_path d j)))).
Proof.
  unfold dir_key, key_of.
  rewrite parse_path_to_str by (apply wf_parent, wf_parse_path).
  rewrite watched_ray. unfold parent. cbn [root parts].
  rewrite removelast_last. reflexivity.
Qed.

(** The log of an index lies in the directory made for it, under the name
    of the index. *)
Lemma log_key_ray w d j idx :
  log_key w (ray_log_path d j) idx
  = dir_key w (ray_log_path d j) idx ++ [log_name idx].
Proof.
  rewrite dir_key_ray. unfold log_key, key_of.
  rewrite parse_path_to_str by apply wf_parse_path.
  rewrite watched_ray. apply resolve_parts_snoc, log_name_plain.
Qed.

(** The directories of all indices lie equally deep. *)
Lemma dir_key_length w d j i i' :
  length (dir_key w (ray_log_path d j) i)
  = length (dir_key w (ray_log_path d j) i').
Proof.
  rewrite !dir_key_ray, !resolve_parts_step. cbn [root parts].
  rewrite <- (map_id (parts (log_dir_path d j))) at 1 2.
  rewrite !map_map.
  apply length_fold_step; [reflexivity|].
  intros x. cbn beta.
  rewrite !(repl_eqb_short _ (format_04d_long _)) by (simpl; lia).
  reflexivity.
Qed.

End LayoutFacts.

(* ===================================================================== *)
(** ** When [get_log_paths] returns *)
(* ===================================================================== *)

Module RunFacts.
Import PyStr PurePath World Yaspi StrFacts WorldFacts PathFacts FsFacts LoopFacts.

(** *** Paths without [..] *)

Definition plain (x : string) : bool := negb (String.eqb x "..").

Lemma step_plain cur x : plain x = true -> step cur x = cur ++ [x].
Proof.
  unfold plain, step. intros H. apply negb_true_iff in H. rewrite H. reflexivity.
Qed.

Lemma fold_step_plain : forall l acc,
  forallb plain l = true -> fold_left step l acc = acc ++ l.
Proof.
  induction l as [|x l IH]; intros acc H; [rewrite List.app_nil_r; reflexivity|].
  cbn [forallb] in H. apply andb_true_iff in H as [Hx Hl].
  cbn [fold_left]. rewrite (step_plain _ _ Hx), (IH _ Hl), <- List.app_assoc.
  reflexivity.
Qed.

(** *** Paths with [..] *)

(** The components up to the last [..], and the components after it. *)
Fixpoint dots_split (l : list string) : list string * list string :=
  match l with
  | [] => ([], [])
  | x :: l' =>
      let (a, b) := dots_split l' in
      match a with
      | [] => if plain x then ([], x :: b) else ([x], b)
      | _ :: _ => (x :: a, b)
      end
  end.

Lemma dots_split_app l : l = fst (dots_split l) ++ snd (dots_split l).
Proof.
  induction l as [|x l IH]; [reflexivity|]. cbn [dots_split].
  destruct (dots_split l) as [[|y a] b]; cbn [fst snd app] in *.
  - destruct (plain x); cbn [fst snd app]; rewrite IH at 1; reflexivity.
  - rewrite IH at 1. reflexivity.
Qed.

Lemma dots_split_plain l : forallb plain (snd (dots_split l)) = true.
Proof.
  induction l as [|x l IH]; [reflexivity|]. cbn [dots_split].
  destruct (dots_split l) as [[|y a] b]; cbn [fst snd] in *.
  - destruct (plain x) eqn:E; cbn [snd forallb]; [rewrite E|]; exact IH.
  - exact IH.
Qed.

(** In a path without [..] nothing comes before the last [..]. *)
Lemma dots_split_none l : forallb plain l = true -> dots_split l = ([], l).
Proof.
  induction l as [|x l IH]; [reflexivity|]. cbn [forallb dots_split].
  intros H. apply andb_true_iff in H as [Hx Hl]. rewrite (IH Hl), Hx.
  reflexivity.
Qed.

(** The system can walk the components of [p] up to its last [..]: the
    directories that a [..] of [p] steps out of are there. *)
Definition dots_walk (f : gmap (list string) node) (w : world) (p : path)
  : bool :=
  match dirwalk f (start_of w p) (fst (dots_split (parts p))) with
  | inr _ => true
  | inl _ => false
  end.

(** A path without [..] has nothing to walk. *)
Lemma dots_walk_plain f w p :
  forallb plain (parts p) = true -> dots_walk f w p = true.
Proof.
  intros H. unfold dots_walk. rewrite (dots_split_none _ H). reflexivity.
Qed.

Lemma dots_walk_keeps f f' w p :
  keeps_dirs f f' -> dots_walk f w p = true -> dots_walk f' w p = true.
Proof.
  unfold dots_walk. intros Hd.
  destruct (dirwalk f (start_of w p) (fst (dots_split (parts p)))) as [e|k] eqn:E;
    [discriminate|].
  rewrite (dirwalk_keeps f f' Hd _ _ _ E). trivial.
Qed.

Lemma dots_walk_cwd f w w' p :
  cwd w' = cwd w -> dots_walk f w' p = dots_walk f w p.
Proof. unfold dots_walk, start_of. intros ->. reflexivity. Qed.

(** The key of the resolved form of a path whose components up to the
    last [..] the system can walk. *)
Lemma key_of_walk f w p a b k0 :
  wf_path p -> parts p = a ++ b -> forallb plain b = true ->
  dirwalk f (start_of w p) a = inr k0 ->
  key_of w (to_str p) = k0 ++ b.
Proof.
  intros Hp Hparts Hb Hw. unfold key_of. rewrite (parse_path_to_str _ Hp).
  rewrite resolve_parts_step, Hparts, fold_left_app.
  change (if String.eqb (root p) "" then cwd w else []) with (start_of w p).
  rewrite <- (dirwalk_key _ _ _ _ Hw). apply fold_step_plain, Hb.
Qed.

(** A walk that gets through finds what the lookup finds. *)
Lemma dirwalk_namei f cur comps k :
  dirwalk f cur comps = inr k -> namei f cur comps = inr k.
Proof.
  destruct (last comps) as [x|] eqn:E.
  - rewrite (last_snoc_parts _ _ E), namei_snoc, dirwalk_snoc.
    destruct (dirwalk f cur (removelast comps)) as [e|k0]; [discriminate|].
    unfold step. destruct (String.eqb x ".."); [trivial|].
    destruct (lookup_node f (k0 ++ [x])) as [[c m|]|]; try discriminate.
    trivial.
  - apply last_None in E. subst comps. trivial.
Qed.

(** The directories from [done] down along [todo] are all there. *)
Fixpoint dirs_ready (f : gmap (list string) node) (done todo : list string)
  : Prop :=
  match todo with
  | [] => True
  | x :: todo' =>
      f !! (done ++ [x]) = Some Dir /\ dirs_ready f (done ++ [x]) todo'
  end.

Lemma dirs_ready_mono f f' done todo :
  (forall k, f !! k = Some Dir -> f' !! k = Some Dir) ->
  dirs_ready f done todo -> dirs_ready f' done todo.
Proof.
  intros Hmono. revert done; induction todo as [|x todo IH]; intros done;
    [trivial|].
  simpl. intros [Hx Hrest]. split; [apply Hmono, Hx|apply IH, Hrest].
Qed.

Lemma grows_ready f f' done todo :
  grows f f' -> dirs_ready f done todo -> dirs_ready f' done todo.
Proof. intros Hg. apply dirs_ready_mono. intros k. apply Hg. Qed.

Lemma dirs_ready_app f : forall a b done,
  dirs_ready f done (a ++ b) <-> dirs_ready f done a /\ dirs_ready f (done ++ a) b.
Proof.
  induction a as [|x a IH]; intros b done; cbn [app dirs_ready].
  - rewrite List.app_nil_r. tauto.
  - rewrite IH, <- List.app_assoc. cbn [app]. tauto.
Qed.

(** The walk through names that are all directories. *)
Lemma dirwalk_plain f : forall comps cur,
  forallb plain comps = true ->
  dirs_ready f cur comps -> dirwalk f cur comps = inr (cur ++ comps).
Proof.
  induction comps as [|x comps IH]; intros cur Hp Hr.
  - rewrite List.app_nil_r. reflexivity.
  - cbn [forallb] in Hp. apply andb_true_iff in Hp as [Hx Hp].
    destruct Hr as [Hd Hr]. cbn [dirwalk].
    unfold plain in Hx. apply negb_true_iff in Hx. rewrite Hx.
    rewrite lookup_node_snoc, Hd, (IH _ Hp Hr), <- List.app_assoc. reflexivity.
Qed.

(** What the walk through plain names has found out. *)
Lemma dirwalk_plain_cases f : forall comps cur,
  forallb plain comps = true ->
  match dirwalk f cur comps with
  | inr k => dirs_ready f cur comps
  | inl ENOTDIR =>
      exists q c m, q `prefix_of` comps /\ q <> []
                    /\ f !! (cur ++ q) = Some (File c m)
  | inl ENOENT => ~ dirs_ready f cur comps
  end.
Proof.
  induction comps as [|x comps IH]; intros cur Hp; [exact I|].
  cbn [forallb] in Hp. apply andb_true_iff in Hp as [Hx Hp].
  cbn [dirwalk]. unfold plain in Hx. apply negb_true_iff in Hx. rewrite Hx.
  rewrite lookup_node_snoc.
  destruct (f !! (cur ++ [x])) as [[c m|]|] eqn:E.
  - exists [x], c, m. split; [apply prefix_cons, prefix_nil|].
    split; [discriminate|exact E].
  - specialize (IH (cur ++ [x]) Hp).
    destruct (dirwalk f (cur ++ [x]) comps) as [[|]|k].
    + intros [_ H]. exact (IH H).
    + destruct IH as (q & c & m & Hq & Hne & Hf).
      exists (x :: q), c, m. split; [apply prefix_cons, Hq|].
      split; [discriminate|]. rewrite <- List.app_assoc in Hf. exact Hf.
    + split; [exact E|exact IH].
  - intros [H _]. congruence.
Qed.

(** *** Making the directories of a path *)

(** No regular file lies at [start] or below it along [todo]. *)
Definition clear_from (f : gmap (list string) node) (start todo : list string)
  : Prop :=
  forall q c m, q `prefix_of` todo ->
    lookup_node f (start ++ q) <> Some (File c m).

(** What [mkdir] makes along [todo]: every entry that was there is still
    there, every new entry is a directory on the way, and the directories
    along the way are all there. *)
Definition made_along (f f1 : gmap (list string) node)
    (start todo : list string) : Prop :=
  grows f f1
  /\ (forall k n, f1 !! k = Some n ->
        f !! k = Some n
        \/ (n = Dir /\ exists q, q `prefix_of` todo /\ k = start ++ q))
  /\ dirs_ready f1 start todo.

Lemma mkdir_rec_found r rparts w k :
  locate w (to_str (mk_path r (rev rparts))) = inr k ->
  mkdir_rec r rparts w = mkdir_here (mk_path r (rev rparts)) w.
Proof.
  intros H.
  destruct rparts as [|x rparent]; cbn [mkdir_rec]; unfold mkdir_here, os_mkdir;
    rewrite H; destruct (lookup_node (fs w) k); reflexivity.
Qed.

(** Making a directory at a place the system finds, where no regular file
    lies. *)
Lemma mkdir_here_at p w k :
  locate w (to_str p) = inr k ->
  (forall c m, lookup_node (fs w) k <> Some (File c m)) ->
  exists f1,
    mkdir_here p w = (Ok tt, set_fs w f1)
    /\ grows (fs w) f1
    /\ (forall k' n, f1 !! k' = Some n ->
          fs w !! k' = Some n \/ (n = Dir /\ k' = k))
    /\ lookup_node f1 k = Some Dir.
Proof.
  intros Hl Hfile.
  unfold mkdir_here, os_mkdir. rewrite Hl.
  destruct (lookup_node (fs w) k) as [[c m|]|] eqn:E.
  - exfalso. exact (Hfile c m eq_refl).
  - exists (fs w). unfold unless_is_dir, bind, is_dir, stat. rewrite Hl, E.
    rewrite set_fs_same. split; [reflexivity|]. split; [apply grows_refl|].
    split; [auto|reflexivity].
  - exists (<[k := Dir]> (fs w)). split; [reflexivity|].
    split; [apply insert_absent_grows, E|]. split.
    + intros k' n Hk'. destruct (decide (k' = k)) as [->|Hne].
      * rewrite lookup_insert_eq in Hk'. injection Hk' as <-. auto.
      * rewrite lookup_insert_ne in Hk' by congruence. auto.
    + apply lookup_node_insert_eq, (lookup_node_absent (fs w)), E.
Qed.

Lemma wf_path_prefix r (a b : list string) :
  wf_path (mk_path r (a ++ b)) -> wf_path (mk_path r a).
Proof.
  intros [Hr Hf]. split; [exact Hr|]. cbn [parts] in *.
  apply Forall_app in Hf as [Ha _]. exact Ha.
Qed.

(** [mkdir] with its parents returns when the system can walk the
    components [a] of the path, the components after them hold no [..],
    and no regular file lies on the way along these. *)
Lemma mkdir_rec_run r a : forall rb w k0,
  wf_path (mk_path r (a ++ rev rb)) ->
  forallb plain (rev rb) = true ->
  dirwalk (fs w) (start_of w (mk_path r [])) a = inr k0 ->
  clear_from (fs w) k0 (rev rb) ->
  exists f1,
    mkdir_rec r (rb ++ rev a) w = (Ok tt, set_fs w f1)
    /\ made_along (fs w) f1 k0 (rev rb).
Proof.
  induction rb as [|x rb IH]; intros w k0 Hwf Hplain Hwalk Hclear.
  - cbn [rev app] in *. rewrite List.app_nil_r in Hwf.
    assert (Hloc : locate w (to_str (mk_path r (rev (rev a)))) = inr k0).
    { rewrite rev_involutive. unfold locate.
      rewrite (parse_path_to_str _ Hwf). apply dirwalk_namei, Hwalk. }
    destruct (mkdir_here_at _ w k0 Hloc) as (f1 & Hrun & Hg & Hnew & _).
    { intros c m. specialize (Hclear [] c m (prefix_nil _)).
      rewrite List.app_nil_r in Hclear. exact Hclear. }
    exists f1. rewrite (mkdir_rec_found r (rev a) w _ Hloc).
    split; [exact Hrun|]. split; [exact Hg|]. split; [|exact I].
    intros k n Hk. destruct (Hnew k n Hk) as [H|[-> ->]]; [auto|].
    right. split; [reflexivity|]. exists [].
    split; [apply prefix_nil|rewrite List.app_nil_r; reflexivity].
  - cbn [rev] in *. set (init := rev rb) in *.
    set (start := start_of w (mk_path r [])) in *.
    rewrite List.app_assoc in Hwf.
    set (p := mk_path r ((a ++ init) ++ [x])) in *.
    assert (Hp : mk_path r (rev (x :: rb ++ rev a)) = p).
    { unfold p, init. cbn [rev]. rewrite rev_app_distr, rev_involutive.
      reflexivity. }
    rewrite forallb_app in Hplain. apply andb_true_iff in Hplain as [Hpi Hpx].
    cbn [forallb] in Hpx. rewrite andb_true_r in Hpx.
    assert (Hwalks : forall g : gmap (list string) node,
              grows (fs w) g ->
              dirwalk g start (a ++ init) = dirwalk g k0 init).
    { intros g Hg. rewrite dirwalk_app.
      rewrite (dirwalk_keeps _ g (grows_keeps_dirs _ _ Hg) _ _ _ Hwalk).
      reflexivity. }
    assert (Hlocs : forall g : gmap (list string) node,
              grows (fs w) g ->
              locate (set_fs w g) (to_str p)
              = match dirwalk g k0 init with
                | inl e => inl e
                | inr k => inr (step k x)
                end).
    { intros g Hg. unfold locate. rewrite (parse_path_to_str _ Hwf).
      unfold p. cbn [parts]. rewrite namei_snoc.
      change (start_of (set_fs w g) (mk_path r ((a ++ init) ++ [x])))
        with start.
      change (fs (set_fs w g)) with g. rewrite (Hwalks g Hg). reflexivity. }
    assert (Hfin : forall g : gmap (list string) node,
              dirs_ready g k0 init ->
              (forall c m, lookup_node g (k0 ++ init ++ [x]) <> Some (File c m)) ->
              grows (fs w) g ->
              (forall k n, g !! k = Some n ->
                 fs w !! k = Some n
                 \/ (n = Dir /\ exists q, q `prefix_of` init ++ [x] /\ k = k0 ++ q)) ->
              exists f1, mkdir_here p (set_fs w g) = (Ok tt, set_fs w f1)
                         /\ made_along (fs w) f1 k0 (init ++ [x])).
    { intros g Hr Hfile Hg Hnewg.
      assert (Hl : locate (set_fs w g) (to_str p) = inr (k0 ++ init ++ [x])).
      { rewrite (Hlocs g Hg), (dirwalk_plain _ _ _ Hpi Hr), (step_plain _ _ Hpx).
        rewrite <- List.app_assoc. reflexivity. }
      destruct (mkdir_here_at p (set_fs w g) _ Hl Hfile)
        as (f1 & Hrun & Hg1 & Hnew1 & Hd).
      exists f1. split; [exact Hrun|]. cbn [fs set_fs] in *.
      split; [eapply grows_trans; eauto|]. split.
      - intros k n Hk. destruct (Hnew1 k n Hk) as [H|[-> ->]]; [apply Hnewg, H|].
        right. split; [reflexivity|]. exists (init ++ [x]). split; reflexivity.
      - apply dirs_ready_app. split; [apply (grows_ready g); assumption|].
        cbn [dirs_ready]. split; [|exact I].
        rewrite <- (lookup_node_snoc f1 (k0 ++ init) x), <- List.app_assoc.
        exact Hd. }
    pose proof (dirwalk_plain_cases (fs w) init k0 Hpi) as Hcases.
    pose proof (Hlocs (fs w) (grows_refl _)) as Hloc.
    rewrite set_fs_same in Hloc.
    destruct (dirwalk (fs w) k0 init) as [[|]|k] eqn:Ew.
    + (* a directory on the way is not there: the parents are made *)
      assert (Hos : os_mkdir (to_str p) w
                    = (Raise (FileNotFoundError (to_str p)), w)).
      { unfold os_mkdir. rewrite Hloc. reflexivity. }
      destruct (IH w k0 (wf_path_prefix r (a ++ init) [x] Hwf) Hpi Hwalk)
        as (f2 & Hrec & Hg2 & Hnew2 & Hr2).
      { intros q c m Hq. apply Hclear. destruct Hq as [t ->].
        exists (t ++ [x]). rewrite List.app_assoc. reflexivity. }
      destruct (Hfin f2 Hr2) as (f1 & Hrun & Hmade); [|exact Hg2| |].
      { intros c m Hf. rewrite List.app_assoc, lookup_node_snoc in Hf.
        destruct (Hnew2 _ _ Hf) as [H|[H _]]; [|discriminate].
        rewrite <- lookup_node_snoc, <- List.app_assoc in H.
        revert H. apply Hclear. reflexivity. }
      { intros k n Hk. destruct (Hnew2 k n Hk) as [H|(-> & q & [t ->] & ->)]; [auto|].
        right. split; [reflexivity|]. exists q. split; [|reflexivity].
        exists (t ++ [x]). rewrite List.app_assoc. reflexivity. }
      exists f1. split; [|exact Hmade].
      cbn [mkdir_rec app]. rewrite Hp, Hos.
      rewrite (bind_run _ _ w tt (set_fs w f2) Hrec). exact Hrun.
    + exfalso. destruct Hcases as (q & c & m & [t ->] & Hne & Hf).
      apply (Hclear q c m).
      * exists (t ++ [x]). rewrite List.app_assoc. reflexivity.
      * destruct q as [|y q]; [congruence|].
        destruct k0; exact Hf.
    + destruct (Hfin (fs w) Hcases) as (f1 & Hrun & Hmade);
        [|apply grows_refl|auto|].
      { intros c m. apply Hclear. reflexivity. }
      exists f1. split; [|exact Hmade].
      change ((x :: rb) ++ rev a) with (x :: rb ++ rev a).
      rewrite (mkdir_rec_found r (x :: rb ++ rev a) w (step k x))
        by (rewrite Hp; exact Hloc).
      rewrite Hp. rewrite set_fs_same in Hrun. exact Hrun.
Qed.

(** [mkdir] with its parents on a path. *)
Lemma mkdir_parents_run p w a b k0 :
  wf_path p -> parts p = a ++ b -> forallb plain b = true ->
  dirwalk (fs w) (start_of w p) a = inr k0 ->
  clear_from (fs w) k0 b ->
  exists f1,
    mkdir_parents p w = (Ok tt, set_fs w f1)
    /\ made_along (fs w) f1 k0 b.
Proof.
  intros Hp Hparts Hplain Hwalk Hclear. unfold mkdir_parents.
  destruct (mkdir_rec_run (root p) a (rev b) w k0) as (f1 & Hrun & Hmade).
  - rewrite rev_involutive, <- Hparts. destruct p. exact Hp.
  - rewrite rev_involutive. exact Hplain.
  - exact Hwalk.
  - rewrite rev_involutive. exact Hclear.
  - rewrite rev_involutive in Hmade. rewrite Hparts, rev_app_distr.
    eauto.
Qed.

(** *** The turns of the loop *)

(** No regular file lies on the way down to key [k]. *)
Definition clear_way (f : gmap (list string) node) (k : list string) : Prop :=
  forall q c m, q <> [] -> q `prefix_of` k -> f !! q <> Some (File c m).

(** The logs of the indices [all] lie each in its directory, and the
    directories lie equally deep. *)
Definition aligned (w : world) (lp : string) (all : list Z) : Prop :=
  forall i, In i all ->
    (exists x, log_key w lp i = dir_key w lp i ++ [x])
    /\ forall j, In j all ->
         length (dir_key w lp j) = length (dir_key w lp i).

(** The entry at the key of a log, if any, lets the turn of the log
    through: it is a regular file, an empty one if there was nothing in
    [f0]; or, when logs are not refreshed, a directory that was there in
    [f0]. *)
Definition log_ok (refresh : bool) (f0 f : gmap (list string) node)
    (k : list string) : Prop :=
  match lookup_node f k with
  | Some Dir => refresh = false /\ lookup_node f0 k = Some Dir
  | Some (File c _) => lookup_node f0 k = None -> c = ""
  | None => True
  end.

(** There is an entry at [k]: a regular file, an empty one if there was
    nothing in [f0], or a directory that was there in [f0]. *)
Definition is_log (f0 f : gmap (list string) node) (k : list string) : Prop :=
  match lookup_node f k with
  | Some Dir => lookup_node f0 k = Some Dir
  | Some (File c _) => lookup_node f0 k = None -> c = ""
  | None => False
  end.

Lemma is_log_ok refresh f0 f k :
  is_log f0 f k -> (refresh = true -> lookup_node f k <> Some Dir) ->
  log_ok refresh f0 f k.
Proof.
  unfold is_log, log_ok. destruct (lookup_node f k) as [[c m|]|]; auto.
  intros H Hr. split; [|exact H].
  destruct refresh; [exfalso; apply Hr; reflexivity|reflexivity].
Qed.

(** The file system lets every turn of the loop through. *)
Definition ready (refresh : bool) (f0 f : gmap (list string) node) (w : world)
    (lp : string) (all : list Z) : Prop :=
  forall i, In i all ->
    dots_walk f w (parent (watched lp i)) = true
    /\ clear_way f (dir_key w lp i)
    /\ log_ok refresh f0 f (log_key w lp i).

Lemma aligned_cwd w w' lp all :
  cwd w' = cwd w -> aligned w lp all -> aligned w' lp all.
Proof.
  intros Hc H i Hi. destruct (H i Hi) as [[x Hx] Hlen].
  rewrite (log_key_cwd w w' lp i Hc), (dir_key_cwd w w' lp i Hc).
  split; [exists x; exact Hx|].
  intros j Hj. rewrite (dir_key_cwd w w' lp j Hc). apply Hlen, Hj.
Qed.

Lemma ready_cwd refresh f0 f w w' lp all :
  cwd w' = cwd w -> ready refresh f0 f w lp all -> ready refresh f0 f w' lp all.
Proof.
  intros Hc H i Hi.
  rewrite (log_key_cwd w w' lp i Hc), (dir_key_cwd w w' lp i Hc).
  rewrite (dots_walk_cwd f w w' _ Hc).
  apply H, Hi.
Qed.

Lemma prefix_length_le {A} (q k : list A) : q `prefix_of` k -> length q <= length k.
Proof. intros [t ->]. rewrite List.length_app. lia. Qed.

(** One turn of the loop in a file system that is ready for it. *)
Lemma watch_log_turn self lp f0 all acc idx w :
  log_path self = Some lp ->
  aligned w lp all ->
  In idx all ->
  ready (refresh_logs self) f0 (fs w) w lp all ->
  exists w',
    watch_log self acc idx w = (Ok (acc ++ [resolved w lp idx]), w')
    /\ cwd w' = cwd w /\ umask w' = umask w
    /\ ready (refresh_logs self) f0 (fs w') w lp all
    /\ is_log f0 (fs w') (log_key w lp idx)
    /\ (forall k, is_log f0 (fs w) k -> is_log f0 (fs w') k).
Proof.
  intros Hlp Hal Hin Hready.
  destruct (Hready idx Hin) as (Hdots & Hway & Hlog).
  destruct (Hal idx Hin) as [[x Hx] Hlen].
  set (p := watched lp idx) in *. set (pp := parent p) in *.
  assert (Hwp : wf_path p) by apply wf_parse_path.
  assert (Hwpp : wf_path pp) by apply wf_parent, Hwp.
  set (a := fst (dots_split (parts pp))).
  set (b := snd (dots_split (parts pp))).
  assert (Hparts : parts pp = a ++ b) by apply dots_split_app.
  assert (Hb : forallb plain b = true) by apply dots_split_plain.
  assert (Hwalk : exists k0, dirwalk (fs w) (start_of w pp) a = inr k0).
  { unfold dots_walk in Hdots. fold a in Hdots.
    destruct (dirwalk (fs w) (start_of w pp) a) as [e|k0]; [discriminate|].
    exists k0. reflexivity. }
  destruct Hwalk as [k0 Hwalk].
  set (k := log_key w lp idx) in *. set (d := dir_key w lp idx) in *.
  assert (Hd : d = k0 ++ b)
    by apply (key_of_walk (fs w) w pp a b k0 Hwpp Hparts Hb Hwalk).
  assert (Hclear : clear_from (fs w) k0 b).
  { intros q c m Hq Hf.
    destruct (k0 ++ q) as [|y t] eqn:Ek; [discriminate|].
    rewrite lookup_node_cons in Hf. revert Hf. apply Hway; [discriminate|].
    rewrite Hd, <- Ek. destruct Hq as [t' ->]. exists t'.
    rewrite List.app_assoc. reflexivity. }
  destruct (mkdir_parents_run pp w a b k0 Hwpp Hparts Hb Hwalk Hclear)
    as (f1 & Hmk & Hkeep & Hnew & Hrdy).
  assert (Hloc : locate (set_fs w f1) (to_str p) = inr k).
  { destruct (mkdir_parents_ok _ _ _ _ Hmk) as (f1' & Hf1 & _ & _ & Hst).
    apply (f_equal fs) in Hf1. cbn [fs set_fs] in Hf1. subst f1'.
    apply (locate_child (set_fs w f1) p Hwp Hst). }
  assert (Hkd : length k = S (length d)).
  { rewrite Hx, List.length_app. cbn [length]. lia. }
  assert (Hshort : forall k' n, f1 !! k' = Some n ->
            fs w !! k' = Some n \/ (n = Dir /\ length k' <= length d)).
  { intros k' n Hk'. destruct (Hnew k' n Hk') as [H|(-> & q & [t Ht] & ->)];
      [auto|]. right. split; [reflexivity|].
    rewrite Hd, Ht, !List.length_app. lia. }
  (* the logs are where they were after the directories are made *)
  assert (F1 : forall i, In i all ->
            lookup_node f1 (log_key w lp i) = lookup_node (fs w) (log_key w lp i)).
  { intros i Hi. destruct (Hal i Hi) as [[xi Hxi] _].
    pose proof (Hlen i Hi) as Hli.
    rewrite Hxi, !lookup_node_snoc.
    destruct (fs w !! (dir_key w lp i ++ [xi])) as [n|] eqn:E;
      [apply Hkeep, E|].
    destruct (f1 !! (dir_key w lp i ++ [xi])) as [n|] eqn:E1; [|reflexivity].
    destruct (Hshort _ _ E1) as [H|[_ H]]; [congruence|].
    rewrite List.length_app in H. cbn [length] in H. fold d in Hli. lia. }
  assert (F2 : forall i, In i all -> clear_way f1 (dir_key w lp i)).
  { intros i Hi q c m Hq Hpre Hfile.
    destruct (Hshort _ _ Hfile) as [H|[H _]]; [|discriminate].
    destruct (Hready i Hi) as (_ & Hw & _). exact (Hw q c m Hq Hpre H). }
  assert (Hnodir : refresh_stopped self f1 k = false).
  { unfold refresh_stopped. destruct (refresh_logs self) eqn:Eb; [|reflexivity].
    cbn [andb]. unfold k. rewrite (F1 idx Hin). fold k. unfold log_ok in Hlog.
    destruct (lookup_node (fs w) k) as [[c m|]|]; try reflexivity.
    destruct Hlog as [Hl _]. discriminate. }
  set (f2 := touched (new_file_mode w) k (refreshed (refresh_logs self) k f1)).
  assert (Hk2 : is_log f0 f2 k).
  { unfold f2, is_log. destruct (refresh_logs self) eqn:Eb.
    - rewrite touched_refreshed_on; [reflexivity|].
      apply (refresh_stopped_on self); assumption.
    - unfold refreshed. unfold log_ok in Hlog.
      unfold k in Hlog at 1. rewrite <- (F1 idx Hin) in Hlog. fold k in Hlog.
      destruct (lookup_node f1 k) as [[c m|]|] eqn:E.
      + unfold touched. rewrite E, E. exact Hlog.
      + unfold touched. rewrite E, E. apply Hlog.
      + rewrite (touched_absent _ _ _ E). reflexivity. }
  assert (Hother : forall k', k <> k' -> lookup_node f2 k' = lookup_node f1 k').
  { intros k' Hne. unfold f2.
    rewrite (touched_other _ _ _ _ Hne). apply refreshed_other, Hne. }
  assert (Hdirs : keeps_dirs (fs w) f2).
  { intros k' Hk'. pose proof (lookup_node_keeps _ _ Hkeep _ _ Hk') as H1.
    destruct (decide (k = k')) as [<-|Hne]; [|rewrite (Hother _ Hne); exact H1].
    unfold f2, refreshed, refresh_stopped in *.
    destruct (refresh_logs self); cbn [andb] in Hnodir.
    - rewrite H1 in Hnodir. discriminate.
    - unfold touched. rewrite H1. exact H1. }
  exists (watched_world self lp idx w f1).
  rewrite (watch_log_run self lp acc idx w f1 Hlp Hmk Hloc). fold k.
  rewrite Hnodir.
  split; [reflexivity|]. split; [reflexivity|]. split; [reflexivity|].
  change (fs (watched_world self lp idx w f1)) with f2.
  split; [|split; [exact Hk2|]].
  - intros i Hi. destruct (Hready i Hi) as (Hpi & _ & Hlogi).
    split; [apply (dots_walk_keeps (fs w)); assumption|]. split.
    + intros q c m Hq Hpre Hfile.
      assert (Hqk : k <> q).
      { intros E. apply prefix_length_le in Hpre.
        pose proof (Hlen i Hi) as Hli. fold d in Hli. rewrite <- E in Hpre. lia. }
      apply (F2 i Hi q c m Hq Hpre).
      destruct q as [|y q]; [congruence|].
      rewrite <- lookup_node_cons, <- (Hother _ Hqk). exact Hfile.
    + destruct (decide (k = log_key w lp i)) as [E|Hne].
      * rewrite <- E. apply is_log_ok; [exact Hk2|].
        intros Hon. unfold f2. rewrite Hon.
        rewrite touched_refreshed_on; [discriminate|].
        apply (refresh_stopped_on self); assumption.
      * unfold log_ok. rewrite (Hother _ Hne), (F1 i Hi). exact Hlogi.
  - intros k' Hk'. destruct (decide (k = k')) as [<-|Hne]; [exact Hk2|].
    unfold is_log in *. rewrite (Hother _ Hne).
    destruct (lookup_node (fs w) k') as [n|] eqn:E; [|destruct Hk'].
    rewrite (lookup_node_keeps _ _ Hkeep _ _ E). exact Hk'.
Qed.

(** The loop in a file system that is ready for it: it returns the
    resolved paths of its indices, and their logs are there. *)
Lemma loop_run self lp f0 all : forall l acc w,
  log_path self = Some lp ->
  aligned w lp all ->
  incl l all ->
  ready (refresh_logs self) f0 (fs w) w lp all ->
  exists w',
    for_fold (watch_log self) l acc w = (Ok (acc ++ map (resolved w lp) l), w')
    /\ cwd w' = cwd w /\ umask w' = umask w
    /\ Forall (fun i => is_log f0 (fs w') (log_key w lp i)) l
    /\ (forall k, is_log f0 (fs w) k -> is_log f0 (fs w') k).
Proof.
  induction l as [|idx l IH]; intros acc w Hlp Hal Hincl Hready.
  - exists w. cbn [for_fold map]. rewrite List.app_nil_r.
    repeat split; [constructor|trivial].
  - assert (Hin : In idx all) by (apply Hincl; left; reflexivity).
    assert (Hincl' : incl l all).
    { intros i Hi. apply Hincl. right. exact Hi. }
    destruct (watch_log_turn self lp f0 all acc idx w Hlp Hal Hin Hready)
      as (w1 & Hrun & Hcwd & Hum & Hready1 & Hlog1 & Hkeep1).
    destruct (IH (acc ++ [resolved w lp idx]) w1 Hlp
                (aligned_cwd w w1 lp all Hcwd Hal) Hincl'
                (ready_cwd _ f0 (fs w1) w w1 lp all Hcwd Hready1))
      as (w' & Hrun' & Hcwd' & Hum' & Hall & Hkeep').
    exists w'. cbn [for_fold].
    rewrite (bind_run _ _ w _ w1 Hrun), Hrun'.
    split; [|split; [congruence|split; [congruence|split]]].
    + rewrite <- List.app_assoc. cbn [map app].
      rewrite (map_ext (resolved w1 lp) (resolved w lp)
                 (fun i => resolved_cwd w w1 lp i Hcwd)).
      reflexivity.
    + constructor.
      * apply Hkeep', Hlog1.
      * eapply Forall_impl; [exact Hall|]. intros i. cbn beta.
        rewrite (log_key_cwd w w1 lp i Hcwd). trivial.
    + intros k Hk. apply Hkeep', Hkeep1, Hk.
Qed.

(** *** The conditions as checks *)

(** No regular file lies on the way down to key [k]. *)
Definition no_file_on_way (f : gmap (list string) node) (k : list string)
  : bool :=
  forallb (fun n => match f !! firstn n k with
                    | Some (File _ _) => false
                    | _ => true
                    end)
          (seq 1 (length k)).

(** The entry at [k] is no directory. *)
Definition no_dir_at (f : gmap (list string) node) (k : list string) : bool :=
  match lookup_node f k with
  | Some Dir => false
  | _ => true
  end.

(** The directories of the logs can be made: the directories that a [..]
    of their paths steps out of are there, and no regular file lies where a
    directory of a log is to be. *)
Definition dirs_can_be_made (w : world) (lp : string) (n : Z) : bool :=
  forallb (fun idx => dots_walk (fs w) w (parent (watched lp idx))
                      && no_file_on_way (fs w) (dir_key w lp idx))
          (range n).

(** No directory lies where a log is to be. *)
Definition no_dir_at_logs (w : world) (lp : string) (n : Z) : bool :=
  forallb (fun idx => no_dir_at (fs w) (log_key w lp idx)) (range n).

(** The file system lets [get_log_paths] through, with or without the
    refresh: the directories of the logs can be made, and no directory lies
    where a log is to be. *)
Definition logs_can_be_made (w : world) (lp : string) (n : Z) : bool :=
  dirs_can_be_made w lp n && no_dir_at_logs w lp n.

Lemma firstn_length_app {A} (q t : list A) : firstn (length q) (q ++ t) = q.
Proof.
  induction q as [|x q IH]; [reflexivity|]. cbn. rewrite IH. reflexivity.
Qed.

Lemma no_file_on_way_clear f k : no_file_on_way f k = true -> clear_way f k.
Proof.
  unfold no_file_on_way. rewrite forallb_forall.
  intros H q c m Hq [t ->] Hfile.
  specialize (H (length q)). rewrite firstn_length_app, Hfile in H.
  assert (Hin : In (length q) (seq 1 (length (q ++ t)))).
  { apply in_seq. rewrite List.length_app.
    destruct q; [congruence|]. cbn [length]. lia. }
  specialize (H Hin). discriminate.
Qed.

Lemma can_be_made_ready refresh w lp n :
  dirs_can_be_made w lp n = true ->
  (refresh = true -> no_dir_at_logs w lp n = true) ->
  ready refresh (fs w) (fs w) w lp (range n).
Proof.
  unfold dirs_can_be_made, no_dir_at_logs. rewrite !forallb_forall.
  intros H Hr i Hi. specialize (H i Hi). apply andb_true_iff in H as [H1 H2].
  split; [exact H1|]. split; [apply no_file_on_way_clear, H2|].
  unfold log_ok. destruct (lookup_node (fs w) (log_key w lp i)) as [[c m|]|] eqn:E.
  - intros H. discriminate.
  - split; [|reflexivity]. destruct refresh; [|reflexivity].
    specialize (Hr eq_refl i Hi). unfold no_dir_at in Hr. rewrite E in Hr. discriminate.
  - exact I.
Qed.

Lemma logs_can_be_made_ready refresh w lp n :
  logs_can_be_made w lp n = true -> ready refresh (fs w) (fs w) w lp (range n).
Proof.
  unfold logs_can_be_made. intros H. apply andb_true_iff in H as [H1 H2].
  apply can_be_made_ready; auto.
Qed.

(** The index has four digits up to 9999. *)
Lemma format_04d_four n :
  (0 <= n < 10000)%Z -> String.length (format_04d n) = 4.
Proof.
  intros Hn.
  assert (H : forallb (fun i => Nat.eqb (String.length (format_04d i)) 4)
                      (range 10000) = true) by (vm_compute; reflexivity).
  rewrite forallb_forall in H. apply Nat.eqb_eq, H.
  unfold range. apply in_map_iff. exists (Z.to_nat n).
  split; [lia|]. apply in_seq. lia.
Qed.

End RunFacts.

(* ===================================================================== *)
(** ** The renderer: claims C1, C7, C10 *)
(* ===================================================================== *)

Module RendererClaims.
Import PyStr Re Render StrFacts RenderFacts PathFacts.

Lemma match_here_other c s :
  Ascii.eqb "{" c = false -> match_here (String c s) = None.
Proof. intros H. unfold match_here. cbn [strip_prefix]. rewrite H. reflexivity. Qed.

Lemma lazy_group_name k post :
  has_char "}" k = false -> has_char LF k = false ->
  lazy_group (k +:+ "}}" +:+ post) = Some (k, post).
Proof.
  induction k as [|c k IH]; intros Hb Hn.
  - reflexivity.
  - simpl in Hb, Hn.
    apply orb_false_iff in Hb as [Hb1 Hb2].
    apply orb_false_iff in Hn as [Hn1 Hn2].
    rewrite app_cons. cbn [lazy_group strip_prefix].
    rewrite Ascii.eqb_sym, Hb1, Hn1, (IH Hb2 Hn2). reflexivity.
Qed.

Lemma match_here_placeholder k post :
  has_char "}" k = false -> has_char LF k = false ->
  match_here ("{{" +:+ k +:+ "}}" +:+ post) = Some (k, post).
Proof.
  intros Hb Hn. unfold match_here.
  change ("{{" +:+ k +:+ "}}" +:+ post)
    with (String "{" (String "{" (k +:+ "}}" +:+ post))).
  cbn [strip_prefix]. rewrite Ascii.eqb_refl.
  apply lazy_group_name; assumption.
Qed.

Lemma substitute_literal_prefix rules pre s :
  has_char "{" pre = false ->
  substitute rules (pre +:+ s)
  = rbind (substitute rules s) (fun r => Ok (pre +:+ r)).
Proof.
  induction pre as [|c pre IH]; intros H.
  - rewrite app_nil_l. destruct (substitute rules s); reflexivity.
  - simpl in H. apply orb_false_iff in H as [Hc Hpre].
    rewrite app_cons, substitute_cons, match_here_other
      by (rewrite Ascii.eqb_sym; exact Hc).
    rewrite (IH Hpre). destruct (substitute rules s); reflexivity.
Qed.

(** C1. Rendering a row substitutes every placeholder with the text of its
    rule value and keeps all other text: the row loop of [fill_template],
    with its spans and slices, computes exactly the direct left-to-right
    substitution [substitute]; a row made of literal text, a placeholder
    whose name has a rule, and a rest renders to the literal text, the
    text of the value and the rendering of the rest. In particular the row
    [a{{x}}b{{y}}c] under the rules x -> 1, y -> 22 renders to [a1b22c]. *)
Theorem C1_substitution_correct :
  (forall (rules : gmap string value) (row : string),
     fill_row rules row = substitute rules row)
  /\ (forall (rules : gmap string value) (pre k post : string) (v : value),
        has_char "{" pre = false ->
        has_char "}" k = false ->
        has_char LF k = false ->
        rules !! k = Some v ->
        fill_row rules (pre +:+ "{{" +:+ k +:+ "}}" +:+ post)
        = rbind (fill_row rules post) (fun r => Ok (pre +:+ str v +:+ r)))
  /\ fill_row (<["x" := VStr "1"]> (<["y" := VStr "22"]> ∅)) "a{{x}}b{{y}}c"
     = Ok "a1b22c".
Proof.
  split; [|split].
  - apply fill_row_substitute.
  - intros rules pre k post v Hpre Hb Hn Hv.
    rewrite !fill_row_substitute, substitute_literal_prefix by exact Hpre.
    change ("{{" +:+ k +:+ "}}" +:+ post)
      with (String "{" (String "{" (k +:+ "}}" +:+ post))).
    rewrite substitute_cons.
    change (String "{" (String "{" (k +:+ "}}" +:+ post)))
      with ("{{" +:+ k +:+ "}}" +:+ post).
    rewrite (match_here_placeholder k post Hb Hn).
    unfold getitem. rewrite Hv. cbn [rbind].
    destruct (substitute rules post); reflexivity.
  - vm_compute. reflexivity.
Qed.

Lemma C1_substitution_correct_witness :
  has_char "{" "  say " = false
  /\ has_char "}" "name" = false
  /\ has_char LF "name" = false
  /\ (<["name" := VInt 7]> ∅ : gmap string value) !! "name" = Some (VInt 7)
  /\ fill_row (<["name" := VInt 7]> ∅)
        ("  say " +:+ "{{" +:+ "name" +:+ "}}" +:+ " } twice")
      = rbind (fill_row (<["name" := VInt 7]> ∅) " } twice")
              (fun r => Ok ("  say " +:+ str (VInt 7) +:+ r)).
Proof.
  split; [reflexivity|]. split; [reflexivity|]. split; [reflexivity|].
  split; [vm_compute; reflexivity|].
  apply (proj1 (proj2 C1_substitution_correct)).
  - reflexivity.
  - reflexivity.
  - reflexivity.
  - vm_compute. reflexivity.
Defined.

(** C7. Rendering is the identity on text without placeholders: a row in
    which the pattern finds no match is returned as it is, a template all
    of whose rows are such is returned row for row, and its rendered text
    is its rows joined by newlines. *)
Theorem C7_placeholder_free_identity :
  forall (rules : gmap string value) (text : string),
    Forall (fun row => finditer row = []) (splitlines text) ->
    Forall (fun row => fill_row rules row = Ok row) (splitlines text)
    /\ fill_rows rules (splitlines text) = Ok (splitlines text)
    /\ fill_text rules text = Ok (join (String LF "") (splitlines text)).
Proof.
  intros rules text H. split; [|split].
  - eapply Forall_impl; [exact H|]. intros row. apply fill_row_no_match.
  - apply fill_rows_no_match. exact H.
  - unfold fill_text. rewrite (fill_rows_no_match rules _ H). reflexivity.
Qed.

Lemma C7_placeholder_free_identity_witness :
  Forall (fun row => finditer row = [])
    (splitlines ("#!/bin/bash" +:+ String LF ("echo {x} }}" +:+ String LF "")))
  /\ fill_text (<["x" := VStr "1"]> ∅)
       ("#!/bin/bash" +:+ String LF ("echo {x} }}" +:+ String LF ""))
     = Ok (join (String LF "")
             (splitlines ("#!/bin/bash" +:+ String LF ("echo {x} }}" +:+ String LF "")))).
Proof.
  assert (H : Forall (fun row => finditer row = [])
    (splitlines ("#!/bin/bash" +:+ String LF ("echo {x} }}" +:+ String LF "")))).
  { vm_compute. repeat constructor. }
  split; [exact H|].
  exact (proj2 (proj2 (C7_placeholder_free_identity _ _ H))).
Defined.

(** C10, as stated, fails: the rendered text can end with a newline. The
    template text [a], newline, newline has the rows [a] and the empty row,
    and renders to [a], newline. *)
Lemma C10_counterexample :
  ~ (forall (rules : gmap string value) (text out : string),
       fill_text rules text = Ok out -> last_char out <> Some LF).
Proof.
  intros H.
  apply (H ∅ (String "a" (String LF (String LF ""))) (String "a" (String LF ""))).
  - vm_compute. reflexivity.
  - reflexivity.
Qed.

Lemma substitute_free c rules :
  (forall k v, rules !! k = Some v -> has_char c (str v) = false) ->
  forall s out,
    has_char c s = false -> substitute rules s = Ok out ->
    has_char c out = false.
Proof.
  intros Hrules s.
  induction s as [s IH] using (well_founded_induction
    (well_founded_ltof _ String.length)).
  intros out Hs Hout. destruct s as [|a s].
  - rewrite substitute_nil in Hout. injection Hout as <-. reflexivity.
  - rewrite substitute_cons in Hout.
    destruct (match_here (String a s)) as [[k rest]|] eqn:E.
    + unfold getitem in Hout.
      destruct (rules !! k) as [v|] eqn:Ek; [|discriminate].
      cbn [rbind] in Hout.
      destruct (substitute rules rest) as [r|e] eqn:Er; [|discriminate].
      cbn [rbind] in Hout. injection Hout as <-.
      pose proof (match_here_length _ _ _ E) as Hlen.
      apply match_here_app in E. rewrite E in Hs.
      rewrite !has_char_app in Hs.
      apply orb_false_iff in Hs as [_ Hs].
      apply orb_false_iff in Hs as [_ Hs].
      apply orb_false_iff in Hs as [_ Hs].
      rewrite has_char_app, (Hrules k v Ek).
      apply (IH rest); [unfold ltof; lia|exact Hs|exact Er].
    + destruct (substitute rules s) as [r|e] eqn:Er; [|discriminate].
      cbn [rbind] in Hout. injection Hout as <-.
      cbn [has_char] in *. apply orb_false_iff in Hs as [Ha Hs].
      rewrite Ha. apply (IH s); [unfold ltof; simpl; lia|exact Hs|exact Er].
Qed.

Lemma rmap_Forall {A B} (f : A -> result B) (P : A -> Prop) (Q : B -> Prop) :
  (forall x y, P x -> f x = Ok y -> Q y) ->
  forall l ys, Forall P l -> rmap f l = Ok ys -> Forall Q ys.
Proof.
  intros Hf. induction l as [|x l IH]; intros ys Hall H.
  - injection H as <-. constructor.
  - inversion Hall as [|? ? Hx Hl]; subst. cbn [rmap] in H.
    destruct (f x) as [y|e] eqn:Ex; [|discriminate]. cbn [rbind] in H.
    destruct (rmap f l) as [ys'|e] eqn:El; [|discriminate].
    cbn [rbind] in H. injection H as <-.
    constructor; [exact (Hf x y Hx Ex)|apply IH; auto].
Qed.

(** The rendered rows hold no newline when no rule value does. *)
Lemma rendered_rows_free rules text ys :
  (forall k v, rules !! k = Some v -> has_char LF (str v) = false) ->
  fill_rows rules (splitlines text) = Ok ys ->
  Forall (fun y => has_char LF y = false) ys.
Proof.
  intros Hrules H.
  apply (rmap_Forall (fill_row rules) (fun row => has_char LF row = false)
           (fun y => has_char LF y = false)) with (l := splitlines text);
    [|apply splitlines_no_newline|exact H].
  intros row y Hrow Hy. rewrite fill_row_substitute in Hy.
  exact (substitute_free LF rules Hrules row y Hrow Hy).
Qed.

Lemma join_snoc sep l r :
  l <> [] -> join sep (l ++ [r]) = join sep l +:+ sep +:+ r.
Proof.
  induction l as [|x l IH]; [congruence|]. intros _.
  destruct l as [|y l]; [reflexivity|].
  change ((x :: y :: l) ++ [r]) with (x :: y :: (l ++ [r])).
  rewrite !join_cons2. change (y :: l ++ [r]) with ((y :: l) ++ [r]).
  rewrite IH by discriminate. rewrite !app_assoc. reflexivity.
Qed.

(** When the text of joined rows ends with a newline. *)
Lemma last_char_join_newline ys :
  last_char (join (String LF "") ys) = Some LF
  <-> exists r, last ys = Some r
                /\ (last_char r = Some LF \/ (r = "" /\ 2 <= length ys)).
Proof.
  destruct (last ys) as [r|] eqn:E.
  - pose proof E as E'. apply last_Some in E' as [l ->].
    destruct (String.eqb_spec r "") as [->|Hr].
    + destruct l as [|x l].
      * cbn. split; [discriminate|].
        intros (r & [= <-] & [H|[_ H]]); [discriminate|lia].
      * rewrite join_snoc by discriminate.
        rewrite app_nil_r, last_char_app by discriminate.
        split; [|reflexivity]. intros _. exists "". split; [reflexivity|].
        right. split; [reflexivity|]. rewrite List.length_app. cbn [length]. lia.
    + rewrite (last_char_join _ _ _ E Hr). split.
      * intros H. exists r. auto.
      * intros (r' & [= <-] & [H|[H _]]); [exact H|congruence].
  - apply last_None in E. subst ys. cbn. split; [discriminate|].
    intros (r & H & _). discriminate.
Qed.

(** C10, amended. The rendered text is the rendered rows of the template,
    one for each of its rows, joined by newlines: when no rule value holds
    a newline and the template has a row, cutting the rendered text at its
    newlines gives the rendered rows back, as many lines as the template
    has rows. The rendered text ends with a newline exactly when the last
    rendered row ends with one, or is empty and not the only row. One
    final newline after a text that does not end in a line boundary
    changes nothing in the rendered text. And when no rule value holds a
    newline, the rendered text does not end with a newline unless the last
    row renders to the empty text. *)
Theorem C10_line_structure :
  (forall (rules : gmap string value) (text : string) (ys : list string),
     fill_rows rules (splitlines text) = Ok ys ->
     fill_text rules text = Ok (join (String LF "") ys)
     /\ length ys = length (splitlines text)
     /\ ((forall k v, rules !! k = Some v -> has_char LF (str v) = false) ->
         splitlines text <> [] ->
         split_on LF (join (String LF "") ys) = ys)
     /\ (last_char (join (String LF "") ys) = Some LF
         <-> exists r, last ys = Some r
                       /\ (last_char r = Some LF
                           \/ (r = "" /\ 2 <= length ys))))
  /\ (forall (rules : gmap string value) (text : string),
        match last_char text with
        | Some c => is_line_boundary c = false
        | None => True
        end ->
        fill_text rules (text +:+ String LF "") = fill_text rules text)
  /\ (forall (rules : gmap string value) (text out r : string),
        (forall k v, rules !! k = Some v -> has_char LF (str v) = false) ->
        fill_text rules text = Ok out ->
        last (splitlines text) = Some r ->
        fill_row rules r <> Ok "" ->
        last_char out <> Some LF).
Proof.
  split; [|split].
  - intros rules text ys H.
    split; [unfold fill_text; rewrite H; reflexivity|].
    split; [exact (rmap_length _ _ _ H)|].
    split; [|apply last_char_join_newline].
    intros Hrules Hrows. apply split_on_join.
    + intros ->. apply rmap_length in H. destruct (splitlines text);
        [congruence|discriminate].
    + exact (rendered_rows_free rules text ys Hrules H).
  - intros rules text H. unfold fill_text.
    destruct (last_char text) as [c|] eqn:E.
    + rewrite (splitlines_final_newline text c E H). reflexivity.
    + apply last_char_none in E. subst text.
      change (splitlines ("" +:+ String LF "")) with [""].
      change (splitlines "") with (@nil string).
      unfold fill_rows. cbn [rmap].
      rewrite (fill_row_no_match rules "" (finditer_from_nil 0)).
      reflexivity.
  - intros rules text out r Hrules Hout Hlast Hr. unfold fill_text in Hout.
    destruct (fill_rows rules (splitlines text)) as [ys|e] eqn:E;
      [|discriminate].
    cbn [rbind] in Hout. injection Hout as <-.
    destruct (rmap_last _ _ _ _ E Hlast) as (y & Hy & Hl).
    assert (Hne : y <> "") by (intros ->; exact (Hr Hy)).
    rewrite (last_char_join _ _ _ Hl Hne).
    apply last_char_no_newline.
    pose proof (rendered_rows_free rules text ys Hrules E) as HF.
    rewrite Forall_forall in HF. apply HF.
    apply last_Some in Hl as [l' ->]. apply list_elem_of_In, in_or_app.
    right. left. reflexivity.
Qed.

Lemma C10_line_structure_witness :
  fill_rows (<["cmd" := VStr "echo hi"]> ∅)
    (splitlines ("#!/bin/bash" +:+ String LF "{{cmd}}"))
  = Ok ["#!/bin/bash"; "echo hi"]
  /\ fill_text (<["cmd" := VStr "echo hi"]> ∅)
       ("#!/bin/bash" +:+ String LF "{{cmd}}")
     = Ok (join (String LF "") ["#!/bin/bash"; "echo hi"])
  /\ split_on LF (join (String LF "") ["#!/bin/bash"; "echo hi"])
     = ["#!/bin/bash"; "echo hi"]
  /\ fill_text (<["cmd" := VStr "echo hi"]> ∅)
       (("#!/bin/bash" +:+ String LF "{{cmd}}") +:+ String LF "")
     = fill_text (<["cmd" := VStr "echo hi"]> ∅)
         ("#!/bin/bash" +:+ String LF "{{cmd}}")
  /\ last_char ("#!/bin/bash" +:+ String LF "echo hi") <> Some LF.
Proof.
  assert (Hrows : fill_rows (<["cmd" := VStr "echo hi"]> ∅)
                    (splitlines ("#!/bin/bash" +:+ String LF "{{cmd}}"))
                  = Ok ["#!/bin/bash"; "echo hi"]) by (vm_compute; reflexivity).
  assert (Hrules : forall k v,
            (<["cmd" := VStr "echo hi"]> ∅ : gmap string value) !! k = Some v ->
            has_char LF (str v) = false).
  { intros k v Hk. apply lookup_insert_Some in Hk as [[_ <-]|[_ Hk]];
      [reflexivity|]. rewrite lookup_empty in Hk. discriminate. }
  destruct (proj1 C10_line_structure _ _ _ Hrows) as (Htext & _ & Hsplit & _).
  split; [exact Hrows|]. split; [exact Htext|].
  split; [apply (Hsplit Hrules); vm_compute; discriminate|].
  split; [apply (proj1 (proj2 C10_line_structure)); reflexivity|].
  apply (proj2 (proj2 C10_line_structure) (<["cmd" := VStr "echo hi"]> ∅)
           ("#!/bin/bash" +:+ String LF "{{cmd}}") _ "{{cmd}}" Hrules).
  - vm_compute. reflexivity.
  - reflexivity.
  - vm_compute. discriminate.
Defined.

End RendererClaims.

(* ===================================================================== *)
(** ** Script generation: claims C2, C4, C8, C9 *)
(* ===================================================================== *)

Module GenerationClaims.
Import PyStr Re Render PurePath World Yaspi StrFacts RenderFacts WorldFacts.

(** An object as [__init__] has it before [generate_scripts] runs. *)
Definition example_job (recipe : string) (gpus : option Z) : Yaspi :=
  mk_Yaspi "echo hi" "logs" recipe "job" "gpu" None false "/t" 5 gpus
           "/gen" 3 None None.

(** A world with the four templates of the ray recipe under [/t]. *)
Definition example_world : world :=
  mk_world
    (<[ ["t"] := Dir ]>
     (<[ ["t"; "ray"] := Dir ]>
     (<[ ["t"; "ray"; "ray-master.sh"] :=
           File ("sbatch {{ray_sbatch_path}}" +:+ String LF
                 ("sleep {{nfs_update_secs}}" +:+ String LF "")) 420%N ]>
     (<[ ["t"; "ray"; "ray-sbatch.sh"] :=
           File ("#SBATCH --array={{array}}" +:+ String LF "{{cmd}}") 420%N ]>
     (<[ ["t"; "ray"; "start-ray-head-node.sh"] := File "{{env_setup}}" 420%N ]>
     (<[ ["t"; "ray"; "start-ray-worker-node.sh"] :=
           File "{{env_setup}}" 420%N ]> ∅))))))
    ["home"; "u"] 18%N [].

(** C8. For a recipe name other than the supported one, script generation
    raises the unsupported-recipe error at once and leaves the world as it
    was: nothing is read, written or printed, and no rule table is
    returned. *)
Theorem C8_unsupported_recipe :
  forall (self : Yaspi) (w : world),
    recipe self <> "ray" ->
    select_recipe self (parse_path (gen_script_dir self))
    = Raise (ValueError ("template: " +:+ recipe self +:+ " unrecognised"))
    /\ generate_scripts self w
       = (Raise (ValueError ("template: " +:+ recipe self +:+ " unrecognised")), w).
Proof.
  intros self w Hne.
  assert (Hsel : select_recipe self (parse_path (gen_script_dir self))
    = Raise (ValueError ("template: " +:+ recipe self +:+ " unrecognised"))).
  { unfold select_recipe.
    destruct (String.eqb (recipe self) "ray") eqn:E; [|reflexivity].
    apply String.eqb_eq in E. contradiction. }
  split; [exact Hsel|].
  unfold generate_scripts, bind, lift. rewrite Hsel. reflexivity.
Qed.

Lemma C8_unsupported_recipe_witness :
  recipe (example_job "slurm" None) <> "ray"
  /\ generate_scripts (example_job "slurm" None) example_world
     = (Raise (ValueError "template: slurm unrecognised"), example_world).
Proof.
  split; [discriminate|].
  apply (C8_unsupported_recipe (example_job "slurm" None) example_world).
  discriminate.
Defined.

Lemma select_recipe_ok self gen_dir selected :
  select_recipe self gen_dir = Ok selected ->
  exists env log,
    selected = (set_log_path (set_env_setup self env) log, ray_template_paths,
                ray_rules (set_log_path (set_env_setup self env) log) gen_dir env log).
Proof.
  unfold select_recipe. destruct (String.eqb (recipe self) "ray"); [|discriminate].
  intros [= <-]. eauto.
Qed.

Lemma ray_rules_sbatch self gen_dir env log :
  exists sbatch,
    ray_rules self gen_dir env log !! "sbatch" = Some sbatch
    /\ sbatch !! "sbatch_resources"
       = if truthy (gpus_per_task self) then
           Some (VStr ("SBATCH --gres=gpu:" +:+
                       match gpus_per_task self with
                       | Some n => str_of_int n
                       | None => "None"
                       end))
         else None.
Proof.
  unfold ray_rules. destruct (truthy (gpus_per_task self)).
  - eexists. split.
    + rewrite lookup_alter_eq, lookup_insert_ne by discriminate.
      rewrite lookup_insert_eq. reflexivity.
    + rewrite lookup_insert_eq. reflexivity.
  - eexists. split.
    + rewrite lookup_insert_ne by discriminate.
      rewrite lookup_insert_eq. reflexivity.
    + repeat (rewrite lookup_insert_ne by discriminate).
      apply lookup_empty.
Qed.

(** C9. The rule table of the submission script has the resource-request
    entry exactly when the accelerator count counts as set: for a positive
    count the entry is there and its text contains the count; for a count
    of zero or none given the table has no such entry at all. *)
Theorem C9_resource_conditional_rule :
  forall (self : Yaspi) (gen_dir : path)
         (selected : Yaspi * list (string * string)
                     * gmap string (gmap string value)),
    select_recipe self gen_dir = Ok selected ->
    exists sbatch : gmap string value,
      snd selected !! "sbatch" = Some sbatch
      /\ (forall n : Z,
            gpus_per_task self = Some n -> (0 < n)%Z ->
            exists v, sbatch !! "sbatch_resources" = Some (VStr v)
                      /\ is_substring (str_of_int n) v)
      /\ (gpus_per_task self = None \/ gpus_per_task self = Some 0%Z ->
          sbatch !! "sbatch_resources" = None).
Proof.
  intros self gen_dir selected Hsel.
  apply select_recipe_ok in Hsel as (env & log & ->). cbn [snd].
  destruct (ray_rules_sbatch (set_log_path (set_env_setup self env) log)
              gen_dir env log) as (sbatch & Hs & Hres).
  cbn [gpus_per_task set_log_path set_env_setup] in Hres.
  exists sbatch. split; [exact Hs|]. split.
  - intros n Hn Hpos. rewrite Hn in Hres. cbn [truthy] in Hres.
    replace (n =? 0)%Z with false in Hres by (symmetry; apply Z.eqb_neq; lia).
    cbn [negb] in Hres. eexists. split; [exact Hres|].
    exists "SBATCH --gres=gpu:", "". rewrite app_nil_r. reflexivity.
  - intros [Hn|Hn]; rewrite Hn in Hres; exact Hres.
Qed.

Lemma C9_resource_conditional_rule_witness :
  exists selected sbatch,
    select_recipe (example_job "ray" (Some 2%Z)) (parse_path "/gen") = Ok selected
    /\ snd selected !! "sbatch" = Some sbatch
    /\ exists v, sbatch !! "sbatch_resources" = Some (VStr v)
                 /\ is_substring "2" v.
Proof.
  eexists.
  destruct (C9_resource_conditional_rule (example_job "ray" (Some 2%Z))
              (parse_path "/gen") _ eq_refl) as (sbatch & Hs & Hpos & _).
  exists sbatch. split; [reflexivity|]. split; [exact Hs|].
  apply (Hpos 2%Z); [reflexivity|lia].
Defined.

(** *** A missing rule *)

Lemma read_text_file w s content mode :
  stat w s = inr (File content mode) ->
  read_text s w = (Ok (universal_newlines content), w).
Proof. intros H. unfold read_text. rewrite H. reflexivity. Qed.

(** C2. A template that refers to a name without a rule does not render:
    for a template the system finds as a regular file, [fill_template]
    raises [KeyError] for a name the template refers to and the rules
    lack, and the loop body that would have written the script stops
    there with the world as it was: nothing is written, created or printed
    for that template. *)
Theorem C2_missing_key_fails :
  forall (self : Yaspi) (gen_dir : path)
         (rules : gmap string (gmap string value))
         (scripts : gmap string path) (key : string) (template_path : path)
         (role_rules : gmap string value) (w : world)
         (content : string) (mode : N),
    rules !! key = Some role_rules ->
    stat w (to_str template_path) = inr (File content mode) ->
    (exists row k, In row (splitlines (universal_newlines content))
                   /\ refers_to row k /\ role_rules !! k = None) ->
    exists row k,
      In row (splitlines (universal_newlines content))
      /\ refers_to row k /\ role_rules !! k = None
      /\ fill_template template_path role_rules w = (Raise (KeyError k), w)
      /\ write_script self gen_dir rules scripts (key, template_path) w
         = (Raise (KeyError k), w).
Proof.
  intros self gen_dir rules scripts key tp role_rules w content mode
         Hrules Hfile Hmissing.
  destruct (fill_rows_missing role_rules _ Hmissing)
    as (row & k & Hin & Href & Hnone & Hraise).
  exists row, k. split; [exact Hin|]. split; [exact Href|].
  split; [exact Hnone|].
  assert (Hfill : fill_template tp role_rules w = (Raise (KeyError k), w)).
  { unfold fill_template, bind, lift.
    rewrite (read_text_file w _ content mode Hfile), Hraise. reflexivity. }
  split; [exact Hfill|].
  unfold write_script, bind at 1, lift at 1, getitem. rewrite Hrules.
  unfold bind at 1. rewrite Hfill. reflexivity.
Qed.

Lemma C2_missing_key_fails_witness :
  exists k,
    fill_template (parse_path "/t/ray/ray-master.sh")
      (<["nfs_update_secs" := VInt 1]> ∅) example_world
    = (Raise (KeyError k), example_world)
    /\ write_script (example_job "ray" None) (parse_path "/gen")
         (<["master" := <["nfs_update_secs" := VInt 1]> ∅]> ∅) ∅
         ("master", parse_path "/t/ray/ray-master.sh") example_world
       = (Raise (KeyError k), example_world).
Proof.
  destruct (C2_missing_key_fails (example_job "ray" None) (parse_path "/gen")
              (<["master" := <["nfs_update_secs" := VInt 1]> ∅]> ∅) ∅
              "master" (parse_path "/t/ray/ray-master.sh")
              (<["nfs_update_secs" := VInt 1]> ∅) example_world
              ("sbatch {{ray_sbatch_path}}" +:+ String LF
                 ("sleep {{nfs_update_secs}}" +:+ String LF "")) 420%N)
    as (row & k & _ & _ & _ & Hfill & Hwrite).
  - vm_compute. reflexivity.
  - vm_compute. reflexivity.
  - exists "sbatch {{ray_sbatch_path}}", "ray_sbatch_path".
    split; [left; vm_compute; reflexivity|].
    split; [|vm_compute; reflexivity].
    eexists. split; [left; vm_compute; reflexivity|reflexivity].
  - exists k. split; assumption.
Defined.

(** *** The path of the submission script *)

Lemma is_substring_refl s : is_substring s s.
Proof. exists "", "". rewrite app_nil_r. reflexivity. Qed.

Lemma is_substring_app sub pre s post :
  is_substring sub s -> is_substring sub (pre +:+ s +:+ post).
Proof.
  intros (a & b & ->). exists (pre +:+ a), (b +:+ post).
  rewrite !app_assoc. reflexivity.
Qed.

Lemma is_substring_app_l sub pre s :
  is_substring sub s -> is_substring sub (pre +:+ s).
Proof.
  intros H. rewrite <- (app_nil_r s). apply is_substring_app. exact H.
Qed.

Lemma is_substring_app_r sub s post :
  is_substring sub s -> is_substring sub (s +:+ post).
Proof. intros H. apply (is_substring_app sub "" s post). exact H. Qed.

Lemma is_substring_join sep y ys :
  In y ys -> is_substring y (join sep ys).
Proof.
  induction ys as [|x ys IH]; [contradiction|].
  intros Hin. destruct ys as [|x' ys].
  - destruct Hin as [->|[]]. apply is_substring_refl.
  - rewrite join_cons2. destruct Hin as [->|Hin].
    + apply is_substring_app_r, is_substring_refl.
    + apply is_substring_app_l, is_substring_app_l, IH, Hin.
Qed.

Lemma rmap_in {A B} (f : A -> result B) l ys x :
  rmap f l = Ok ys -> In x l -> exists y, f x = Ok y /\ In y ys.
Proof.
  revert ys; induction l as [|a l IH]; intros ys; [contradiction|].
  simpl. destruct (f a) as [b|e] eqn:Ea; simpl; [|discriminate].
  destruct (rmap f l) as [ys'|e]; simpl; [|discriminate].
  intros [= <-] [->|Hin].
  - exists b. split; [exact Ea|left; reflexivity].
  - destruct (IH ys' eq_refl Hin) as (y & Hy & Hiny).
    exists y. split; [exact Hy|right; exact Hiny].
Qed.

(** The text of the value of a name the text refers to is part of its
    substitution. *)
Lemma substitute_contains rules k v : forall s pos out,
  (exists m, In m (finditer_from s pos) /\ groups m = [k]) ->
  rules !! k = Some v ->
  substitute rules s = Ok out ->
  is_substring (str v) out.
Proof.
  induction s as [s IH] using (well_founded_induction
    (well_founded_ltof _ String.length)).
  intros pos out (m & Hin & Hk) Hv Hout. destruct s as [|c s].
  - rewrite finditer_from_nil in Hin. contradiction.
  - rewrite finditer_from_cons in Hin. rewrite substitute_cons in Hout.
    destruct (match_here (String c s)) as [[k' rest]|] eqn:E.
    + destruct (getitem rules k') as [v'|e] eqn:Eg; [|discriminate].
      cbn [rbind] in Hout.
      destruct (substitute rules rest) as [r|e] eqn:Er; [|discriminate].
      cbn [rbind] in Hout. injection Hout as <-.
      destruct Hin as [<-|Hin].
      * cbn [groups] in Hk. injection Hk as ->.
        unfold getitem in Eg. rewrite Hv in Eg. injection Eg as <-.
        apply is_substring_app_r, is_substring_refl.
      * apply is_substring_app_l.
        apply (IH rest) with (pos := pos + 4 + len k'); auto.
        -- unfold ltof. apply match_here_length in E. lia.
        -- exists m. auto.
    + destruct (substitute rules s) as [r|e] eqn:Er; [|discriminate].
      cbn [rbind] in Hout. injection Hout as <-.
      apply (is_substring_app_l (str v) (String c "") r).
      apply (IH s) with (pos := S pos); auto.
      * unfold ltof. simpl. lia.
      * exists m. auto.
Qed.

Lemma fill_text_contains rules text k v out :
  (exists row, In row (splitlines text) /\ refers_to row k) ->
  rules !! k = Some v ->
  fill_text rules text = Ok out ->
  is_substring (str v) out.
Proof.
  intros (row & Hin & Href) Hv Hout. unfold fill_text in Hout.
  destruct (fill_rows rules (splitlines text)) as [generated|e] eqn:E;
    [|discriminate].
  cbn [rbind] in Hout. injection Hout as <-.
  destruct (rmap_in _ _ _ _ E Hin) as (y & Hy & Hiny).
  rewrite fill_row_substitute in Hy.
  destruct (is_substring_join (String LF "") y generated Hiny) as (a & b & ->).
  apply is_substring_app.
  exact (substitute_contains rules k v row 0 y Href Hv Hy).
Qed.

Lemma write_script_ok self gen_dir rules scripts key tp w scripts' w' :
  write_script self gen_dir rules scripts (key, tp) w = (Ok scripts', w') ->
  exists rel,
    relative_to tp (parse_path (template_dir self)) = Ok rel
    /\ scripts' = <[key := joinpath gen_dir rel]> scripts.
Proof.
  unfold write_script. intros H.
  apply bind_ok in H as (role_rules & w1 & _ & H).
  apply bind_ok in H as (gen & w2 & _ & H).
  apply bind_ok in H as (rel & w3 & Hrel & H).
  apply lift_ok in Hrel as [Hrel _].
  apply bind_ok in H as (? & w4 & _ & H).
  apply bind_ok in H as (? & w5 & _ & H).
  apply bind_ok in H as (? & w6 & _ & H).
  apply bind_ok in H as (? & w7 & _ & H).
  apply bind_ok in H as (? & w8 & _ & H).
  apply ret_ok in H as [-> _].
  exists rel. auto.
Qed.

Lemma ray_rules_master self gen_dir env log :
  exists master,
    ray_rules self gen_dir env log !! "master" = Some master
    /\ master !! "ray_sbatch_path"
       = Some (VStr (to_str (joinpath gen_dir (parse_path "ray/ray-sbatch.sh")))).
Proof.
  unfold ray_rules. eexists. split.
  - destruct (truthy (gpus_per_task self)).
    + rewrite lookup_alter_ne by discriminate. apply lookup_insert_eq.
    + apply lookup_insert_eq.
  - rewrite lookup_insert_ne by discriminate. apply lookup_insert_eq.
Qed.

(** C4. After script generation the path recorded for the submission
    script is, as text, the value the rule table of the orchestrating
    script holds for the placeholder of that path; so wherever the
    orchestrating template refers to that placeholder, the path is part of
    the rendered orchestrating script. *)
Theorem C4_cross_reference :
  forall (self self' : Yaspi) (w w' : world),
    generate_scripts self w = (Ok self', w') ->
    exists (selected : Yaspi * list (string * string)
                       * gmap string (gmap string value))
           (scripts : gmap string path) (dest : path)
           (master : gmap string value),
      select_recipe self (parse_path (gen_script_dir self)) = Ok selected
      /\ gen_scripts self' = Some scripts
      /\ scripts !! "sbatch" = Some dest
      /\ snd selected !! "master" = Some master
      /\ master !! "ray_sbatch_path" = Some (VStr (to_str dest))
      /\ (forall text out : string,
            (exists row, In row (splitlines text)
                         /\ refers_to row "ray_sbatch_path") ->
            fill_text master text = Ok out ->
            is_substring (to_str dest) out).
Proof.
  intros self self' w w' H. unfold generate_scripts in H.
  apply bind_ok in H as (selected & w1 & Hsel & H).
  apply lift_ok in Hsel as [Hsel ->].
  apply bind_ok in H as (scripts & w2 & Hloop & H).
  apply ret_ok in H as [-> _].
  destruct (select_recipe_ok _ _ _ Hsel) as (env & log & Hshape).
  rewrite Hshape in Hloop. cbn [fst snd] in Hloop.
  unfold ray_template_paths in Hloop. cbn [map fst snd] in Hloop.
  apply for_fold_cons_ok in Hloop as (s1 & v1 & H1 & Hloop).
  apply for_fold_cons_ok in Hloop as (s2 & v2 & H2 & Hloop).
  apply for_fold_cons_ok in Hloop as (s3 & v3 & H3 & Hloop).
  apply for_fold_cons_ok in Hloop as (s4 & v4 & H4 & Hloop).
  rewrite for_fold_nil in Hloop. injection Hloop as Hs4 _.
  apply write_script_ok in H1 as (r1 & _ & E1).
  apply write_script_ok in H2 as (r2 & Hr2 & E2).
  apply write_script_ok in H3 as (r3 & _ & E3).
  apply write_script_ok in H4 as (r4 & _ & E4).
  rewrite relative_to_joinpath in Hr2 by reflexivity. injection Hr2 as <-.
  destruct (ray_rules_master (set_log_path (set_env_setup self env) log)
              (parse_path (gen_script_dir self)) env log)
    as (master & Hm & Hpath).
  exists selected, scripts,
    (joinpath (parse_path (gen_script_dir self)) (parse_path "ray/ray-sbatch.sh")),
    master.
  split; [exact Hsel|]. split; [reflexivity|]. split.
  { rewrite <- Hs4, E4, E3, E2.
    repeat (rewrite lookup_insert_ne by discriminate).
    apply lookup_insert_eq. }
  split; [rewrite Hshape; exact Hm|]. split; [exact Hpath|].
  intros text out Href Hout.
  exact (fill_text_contains master text "ray_sbatch_path" _ out Href Hpath Hout).
Qed.

Lemma C4_cross_reference_witness :
  exists self' w' scripts,
    generate_scripts (example_job "ray" (Some 2%Z)) example_world = (Ok self', w')
    /\ gen_scripts self' = Some scripts
    /\ to_str <$> scripts !! "sbatch" = Some "/gen/ray/ray-sbatch.sh"
    /\ fs w' !! ["gen"; "ray"; "ray-master.sh"]
       = Some (File ("sbatch /gen/ray/ray-sbatch.sh" +:+ String LF "sleep 1") 493%N).
Proof.
  destruct (generate_scripts (example_job "ray" (Some 2%Z)) example_world)
    as [[self'|e] w'] eqn:E; [|vm_compute in E; discriminate E].
  destruct (C4_cross_reference _ _ _ _ E)
    as (selected & scripts & dest & master & Hsel & Hgen & Hdest & _).
  exists self', w', scripts. split; [reflexivity|]. split; [exact Hgen|].
  vm_compute in E. injection E as <- <-.
  vm_compute in Hgen. injection Hgen as <-.
  split; vm_compute; reflexivity.
Defined.

End GenerationClaims.

(* ===================================================================== *)
(** ** Log paths: claims C3, C5, C6 *)
(* ===================================================================== *)

Module LogPathClaims.
Import PyStr PurePath World Yaspi StrFacts WorldFacts FsFacts LoopFacts.
Import PathFacts LayoutFacts RunFacts.

(** An object as [generate_scripts] leaves it for log directory [logs] and
    job name [job], with [n] array tasks. *)
Definition watched_job (refresh : bool) (n : Z) : Yaspi :=
  mk_Yaspi "echo hi" "logs" "ray" "job" "gpu" None refresh "/t" 5 None
           "/gen" n (Some "logs/job/%4a-log.txt") None.

(** A world in which the log of the second task is there, with output of
    an earlier run. *)
Definition log_world : world :=
  mk_world
    (<[ ["home"] := Dir ]>
     (<[ ["home"; "u"] := Dir ]>
     (<[ ["home"; "u"; "logs"] := Dir ]>
     (<[ ["home"; "u"; "logs"; "job"] := Dir ]>
     (<[ ["home"; "u"; "logs"; "job"; "0002-log.txt"] :=
           File "old output" 420%N ]> ∅)))))
    ["home"; "u"] 18%N [].

Lemma aligned_ray w d j all : aligned w (ray_log_path d j) all.
Proof.
  intros i _. split.
  - exists (log_name i). apply log_key_ray.
  - intros i' _. apply dir_key_length.
Qed.

Lemma resolved_ray w d j idx :
  resolved w (ray_log_path d j) idx
  = "/" +:+ join "/" (dir_key w (ray_log_path d j) idx ++ [log_name idx]).
Proof.
  unfold resolved. rewrite log_key_ray. unfold to_str. cbn [parts root].
  destruct (dir_key w (ray_log_path d j) idx); reflexivity.
Qed.

Lemma in_range n i : (i < Z.to_nat n)%nat -> In (Z.of_nat i) (range n).
Proof.
  intros Hi. unfold range. apply in_map, in_seq. lia.
Qed.

(** A world in which a directory lies where the log of the first task is
    to be. *)
Definition dir_world : world :=
  mk_world
    (<[ ["home"] := Dir ]>
     (<[ ["home"; "u"] := Dir ]>
     (<[ ["home"; "u"; "logs"] := Dir ]>
     (<[ ["home"; "u"; "logs"; "job"] := Dir ]>
     (<[ ["home"; "u"; "logs"; "job"; "0001-log.txt"] := Dir ]> ∅)))))
    ["home"; "u"] 18%N [].

(** C3, as stated, fails: a returned path need not be a file. With a
    directory where the log of the first task is to be and no refresh, the
    call returns the path of that directory, and the directory is still
    there afterwards. *)
Lemma C3_counterexample :
  ~ (forall (self : Yaspi) (lp : string) (w w' : world) (paths : list string),
       log_path self = Some lp ->
       (1 <= job_array_size self)%Z ->
       get_log_paths self w = (Ok paths, w') ->
       forall idx, In idx (range (job_array_size self)) ->
         exists c m,
           lookup_node (fs w') (log_key w lp idx) = Some (File c m)).
Proof.
  intros H.
  destruct (H (watched_job false 1) "logs/job/%4a-log.txt" dir_world
              dir_world ["/home/u/logs/job/0001-log.txt"] eq_refl)
    with (idx := 0%Z) as (c & m & Hf).
  - vm_compute. discriminate.
  - vm_compute. reflexivity.
  - left. reflexivity.
  - vm_compute in Hf. discriminate.
Qed.

(** C3, amended. For an array size [N >= 1], when [get_log_paths] returns
    it returns [N] paths in the order of the task indices; the path at
    position [i] is the resolved absolute text of the log path with the
    index [i + 1], zero-filled to at least four digits, put for [%4a];
    after the call there is an entry at every path, a new empty regular
    file when logs are refreshed. With the log path of the recipe, the path
    ends in the index followed by [-log.txt], and the call returns whenever
    the directories that a [..] of the paths of the logs steps out of are
    there, no regular file lies where a directory of a log is to be and,
    when logs are refreshed, no directory lies where a log is to be; the
    entry at a path is then a regular file, an empty one if nothing was
    there, or a directory that was there before; it is a regular file
    wherever no directory lay before the call. The index has four digits
    up to 9999. For array size 3 the paths end in 0001-log.txt,
    0002-log.txt and 0003-log.txt. *)
Theorem C3_log_paths :
  forall (self : Yaspi) (lp : string) (w : world),
    let N := job_array_size self in
    log_path self = Some lp ->
    (1 <= N)%Z ->
    (forall (paths : list string) (w' : world),
       get_log_paths self w = (Ok paths, w') ->
       paths = map (resolved w lp) (range N)
       /\ length paths = Z.to_nat N
       /\ forall i : nat, (i < Z.to_nat N)%nat ->
            let idx := Z.of_nat i in
            paths !! i = Some (resolved w lp idx)
            /\ resolved w lp idx
               = to_str (mk_path "/"
                   (key_of w (to_str (parse_path
                      (replace lp "%4a" (format_04d (idx + 1)))))))
            /\ exists n,
                 lookup_node (fs w') (log_key w lp idx) = Some n
                 /\ (refresh_logs self = true ->
                     n = File "" (new_file_mode w)))
    /\ (lp = ray_log_path (log_dir self) (job_name self) ->
        (forall idx,
           resolved w lp idx
           = "/" +:+ join "/" (dir_key w lp idx
                               ++ [format_04d (idx + 1) +:+ "-log.txt"]))
        /\ (dirs_can_be_made w lp N = true ->
            (refresh_logs self = true -> no_dir_at_logs w lp N = true) ->
            exists w',
              get_log_paths self w = (Ok (map (resolved w lp) (range N)), w')
              /\ forall idx, In idx (range N) ->
                   is_log (fs w) (fs w') (log_key w lp idx)
                   /\ (no_dir_at (fs w) (log_key w lp idx) = true ->
                       exists c m,
                         lookup_node (fs w') (log_key w lp idx)
                         = Some (File c m))))
    /\ (forall n, (0 <= n < 10000)%Z -> String.length (format_04d n) = 4)
    /\ fst (get_log_paths (watched_job false 3) log_world)
       = Ok [ "/home/u/logs/job/0001-log.txt";
              "/home/u/logs/job/0002-log.txt";
              "/home/u/logs/job/0003-log.txt" ].
Proof.
  intros self lp w N Hlp HN.
  split; [|split; [|split; [exact format_04d_four|vm_compute; reflexivity]]].
  - intros paths w' Hrun. unfold get_log_paths in Hrun.
    destruct (loop_paths self lp _ _ _ _ _ Hlp Hrun) as (Hp & _ & _).
    cbn [app] in Hp. fold N in Hp.
    split; [exact Hp|].
    split; [rewrite Hp, length_map; apply length_range|].
    intros i Hi idx.
    split; [rewrite Hp, list_lookup_fmap, (range_lookup N i Hi); reflexivity|].
    split; [reflexivity|].
    assert (Hin : In idx (range N)) by (apply in_range, Hi).
    destruct (refresh_logs self) eqn:Eb.
    + destruct (loop_on self lp _ _ _ _ _ Hlp Eb Hrun) as (_ & Hall).
      rewrite Forall_forall in Hall.
      exists (File "" (new_file_mode w)). split; [|reflexivity].
      apply (Hall idx), list_elem_of_In, Hin.
    + destruct (loop_off self lp _ _ _ _ _ Hlp Eb Hrun) as (_ & Hall).
      rewrite Forall_forall in Hall.
      destruct (Hall idx (proj2 (list_elem_of_In _ _) Hin)) as (_ & n & Hn).
      exists n. split; [exact Hn|discriminate].
  - intros ->. split; [intros idx; apply resolved_ray|].
    intros Hdirs Hlogs.
    destruct (loop_run self _ (fs w) (range N) (range N) [] w Hlp
                (aligned_ray w _ _ _) (incl_refl _)
                (can_be_made_ready (refresh_logs self) w _ N Hdirs Hlogs))
      as (w' & Hrun & _ & _ & Hall & _).
    exists w'. split; [exact Hrun|].
    intros idx Hin. rewrite Forall_forall in Hall.
    pose proof (Hall idx (proj2 (list_elem_of_In _ _) Hin)) as Hlog.
    split; [exact Hlog|].
    unfold is_log in Hlog. unfold no_dir_at. intros Hnd.
    destruct (lookup_node (fs w') (log_key w _ idx)) as [[c m|]|];
      [eauto| |destruct Hlog].
    rewrite Hlog in Hnd. discriminate.
Qed.

Lemma C3_log_paths_witness :
  log_path (watched_job true 3) = Some "logs/job/%4a-log.txt"
  /\ (1 <= job_array_size (watched_job true 3))%Z
  /\ dirs_can_be_made log_world "logs/job/%4a-log.txt" 3 = true
  /\ no_dir_at_logs log_world "logs/job/%4a-log.txt" 3 = true
  /\ exists w',
       get_log_paths (watched_job true 3) log_world
       = (Ok (map (resolved log_world "logs/job/%4a-log.txt") (range 3)), w')
       /\ is_log (fs log_world) (fs w')
            (log_key log_world "logs/job/%4a-log.txt" 1).
Proof.
  split; [reflexivity|]. split; [vm_compute; discriminate|].
  split; [vm_compute; reflexivity|]. split; [vm_compute; reflexivity|].
  destruct (C3_log_paths (watched_job true 3) "logs/job/%4a-log.txt" log_world
              eq_refl) as (_ & Hray & _).
  - vm_compute. discriminate.
  - destruct (proj2 (Hray eq_refl)) as (w' & Hrun & Hall).
    + vm_compute. reflexivity.
    + intros _. vm_compute. reflexivity.
    + exists w'. split; [exact Hrun|]. apply Hall. right. left. reflexivity.
Defined.

(** C5. With [refresh_logs] on, when [get_log_paths] returns, every log it
    derived is an empty regular file with the mode of a newly made file: a
    log that was there, with whatever content, has been deleted and made
    anew. The paths returned are the resolved paths of the logs. With the
    log path of the recipe, the call returns whenever the file system lets
    the logs be made. *)
Theorem C5_refresh_empties :
  forall (self : Yaspi) (lp : string) (w : world),
    log_path self = Some lp ->
    refresh_logs self = true ->
    (forall (paths : list string) (w' : world),
       get_log_paths self w = (Ok paths, w') ->
       paths = map (resolved w lp) (range (job_array_size self))
       /\ forall idx, In idx (range (job_array_size self)) ->
            lookup_node (fs w') (log_key w lp idx)
            = Some (File "" (new_file_mode w)))
    /\ (lp = ray_log_path (log_dir self) (job_name self) ->
        logs_can_be_made w lp (job_array_size self) = true ->
        exists paths w', get_log_paths self w = (Ok paths, w')).
Proof.
  intros self lp w Hlp Hon. split.
  - intros paths w' Hrun. unfold get_log_paths in Hrun.
    destruct (loop_paths self lp _ _ _ _ _ Hlp Hrun) as (Hp & _ & _).
    destruct (loop_on self lp _ _ _ _ _ Hlp Hon Hrun) as (_ & Hall).
    split; [exact Hp|].
    intros idx Hin. rewrite Forall_forall in Hall.
    apply (Hall idx), list_elem_of_In, Hin.
  - intros -> Hok.
    destruct (loop_run self _ (fs w) _ (range (job_array_size self)) [] w Hlp
                (aligned_ray w _ _ _) (incl_refl _)
                (logs_can_be_made_ready (refresh_logs self) w _ _ Hok))
      as (w' & Hrun & _).
    eexists _, w'. exact Hrun.
Qed.

Lemma C5_refresh_empties_witness :
  log_path (watched_job true 3) = Some "logs/job/%4a-log.txt"
  /\ refresh_logs (watched_job true 3) = true
  /\ lookup_node (fs log_world) ["home"; "u"; "logs"; "job"; "0002-log.txt"]
     = Some (File "old output" 420%N)
  /\ lookup_node (fs (snd (get_log_paths (watched_job true 3) log_world)))
       (log_key log_world "logs/job/%4a-log.txt" 1)
     = Some (File "" (new_file_mode log_world)).
Proof.
  split; [reflexivity|]. split; [reflexivity|].
  split; [vm_compute; reflexivity|].
  apply (proj1 (C5_refresh_empties (watched_job true 3) "logs/job/%4a-log.txt"
                  log_world eq_refl eq_refl)
           (map (resolved log_world "logs/job/%4a-log.txt") (range 3))
           (snd (get_log_paths (watched_job true 3) log_world))).
  - vm_compute. reflexivity.
  - vm_compute. auto.
Defined.

(** C6. With [refresh_logs] off, a second call of [get_log_paths] in the
    world a first call has left returns the same paths and leaves that
    world as it is: no file is made, deleted or changed, and nothing is
    printed. With the log path of the recipe, the first call returns
    whenever the file system lets the logs be made. *)
Theorem C6_idempotent :
  forall (self : Yaspi) (lp : string) (w : world),
    log_path self = Some lp ->
    refresh_logs self = false ->
    (forall (paths : list string) (w1 : world),
       get_log_paths self w = (Ok paths, w1) ->
       get_log_paths self w1 = (Ok paths, w1))
    /\ (lp = ray_log_path (log_dir self) (job_name self) ->
        logs_can_be_made w lp (job_array_size self) = true ->
        exists paths w1, get_log_paths self w = (Ok paths, w1)).
Proof.
  intros self lp w Hlp Hoff. split.
  - intros paths w1 Hrun. unfold get_log_paths in *.
    destruct (loop_paths self lp _ _ _ _ _ Hlp Hrun) as (Hp & Hcwd & _).
    destruct (loop_off self lp _ _ _ _ _ Hlp Hoff Hrun) as (_ & Hall).
    rewrite (loop_settled self lp _ [] w1 Hlp Hoff).
    + rewrite Hp. do 3 f_equal. apply map_ext. intros i.
      apply resolved_cwd, Hcwd.
    + eapply Forall_impl; [exact Hall|]. intros i Hi.
      apply (settled_cwd _ w w1); [exact Hcwd|exact Hi].
  - intros -> Hok.
    destruct (loop_run self _ (fs w) _ (range (job_array_size self)) [] w Hlp
                (aligned_ray w _ _ _) (incl_refl _)
                (logs_can_be_made_ready (refresh_logs self) w _ _ Hok))
      as (w1 & Hrun & _).
    eexists _, w1. exact Hrun.
Qed.

Lemma C6_idempotent_witness :
  log_path (watched_job false 3) = Some "logs/job/%4a-log.txt"
  /\ refresh_logs (watched_job false 3) = false
  /\ get_log_paths (watched_job false 3)
       (snd (get_log_paths (watched_job false 3) log_world))
     = (Ok [ "/home/u/logs/job/0001-log.txt";
             "/home/u/logs/job/0002-log.txt";
             "/home/u/logs/job/0003-log.txt" ],
        snd (get_log_paths (watched_job false 3) log_world)).
Proof.
  split; [reflexivity|]. split; [reflexivity|].
  apply (proj1 (C6_idempotent (watched_job false 3) "logs/job/%4a-log.txt"
                  log_world eq_refl eq_refl)).
  vm_compute. reflexivity.
Defined.

End LogPathClaims.
